(** * Spatial values of the SQL engine

    A shallow embedding of [sql/point.go] (the [Point] value and its type
    descriptor [PointType]) and of [sql/expression/function/polygon.go] (the
    orientation / segment-intersection / linear-ring predicates and the
    [POLYGON(...)] constructor expression), followed by the properties the
    design document states about them.

    Conventions of the embedding.
    - A Go [float64] is a [spec_float] of the Standard Library at precision 53
      and maximal exponent 1024 (IEEE 754 binary64, round to nearest even).
      Every arithmetic operation is rounded on its own: no fused
      multiply-add, which is what the amd64 compiler emits.
    - A Go [interface{}] is the sum type [value]; the nil interface is [VNil].
    - A Go function that may panic returns an [outcome]; [(T, error)] results
      are pairs [T * option error], [None] being the nil error.
    - Child expressions are evaluated in a state [St] that is threaded through
      the calls, so that the order and the number of evaluations is visible.
    - [*Polygon] pointers are locations of a heap of constructor nodes. *)

From stdpp Require Import base option list gmap strings.
From Stdlib Require Import ZArith Lia Bool.
From Stdlib Require Import Floats.SpecFloat.

Local Open Scope Z_scope.

(** ** float64 *)

Module F64.
Definition prec : Z := 53.
Definition emax : Z := 1024.

Definition t : Type := spec_float.

Definition NaN : t := S754_nan.
Definition zero : t := S754_zero false.

(** The float64 nearest to an integer, and the powers of two. *)
Definition of_Z (z : Z) : t := binary_normalize prec emax z 0 false.
Definition pow2 (e : Z) : t := SFldexp prec emax (of_Z 1) e.

(** Go's [x - y] and [x * y]. *)
Definition sub (x y : t) : t := SFsub prec emax x y.
Definition mul (x y : t) : t := SFmul prec emax x y.

(** Go's [x == y], [x != y], [x < y] and [x > y]. *)
Definition eqb (x y : t) : bool := SFeqb x y.
Definition neb (x y : t) : bool := negb (SFeqb x y).
Definition ltb (x y : t) : bool := SFltb x y.
Definition gtb (x y : t) : bool :=
  match SFcompare x y with
  | Some Gt => true
  | _ => false
  end.

Definition IsNaN (x : t) : bool :=
  match x with S754_nan => true | _ => false end.

(** [math.IsInf(x, sign)]: [sign > 0] asks for +Inf, [sign < 0] for -Inf. *)
Definition IsInf (x : t) (sign : Z) : bool :=
  match x with
  | S754_infinity s => if s then sign <=? 0 else 0 <=? sign
  | _ => false
  end.

Definition Signbit (x : t) : bool :=
  match x with
  | S754_zero s | S754_infinity s | S754_finite s _ _ => s
  | S754_nan => false
  end.

(** [math.Min] and [math.Max] of the Go standard library, special cases
    first, as in [math/dim.go]. *)
Definition Min (x y : t) : t :=
  if IsInf x (-1) || IsInf y (-1) then S754_infinity true
  else if IsNaN x || IsNaN y then NaN
  else if eqb x zero && eqb x y then (if Signbit x then x else y)
  else if ltb x y then x else y.

Definition Max (x y : t) : t :=
  if IsInf x 1 || IsInf y 1 then S754_infinity false
  else if IsNaN x || IsNaN y then NaN
  else if eqb x zero && eqb x y then (if Signbit x then y else x)
  else if gtb x y then x else y.

(** Neither an infinity nor a NaN. *)
Definition finite (x : t) : bool :=
  match x with
  | S754_zero _ | S754_finite _ _ _ => true
  | S754_infinity _ | S754_nan => false
  end.
End F64.

(** ** Geometric values ([sql.Point], [sql.Linestring], [sql.Polygon]) *)

Record Point : Type := mkPoint { X : F64.t; Y : F64.t }.

Record Linestring : Type := mkLinestring { Points : list Point }.

Record Polygon : Type := mkPolygon { Lines : list Linestring }.

(** Go's [==] on the struct [Point]: field by field, with float64 [==]. *)
Definition Point_eqb (p q : Point) : bool :=
  F64.eqb (X p) (X q) && F64.eqb (Y p) (Y q).

Definition Point_neb (p q : Point) : bool := negb (Point_eqb p q).

Definition Point_finite (p : Point) : bool :=
  F64.finite (X p) && F64.finite (Y p).

(** The point with integer coordinates [(x, y)]. *)
Definition pt (x y : Z) : Point := mkPoint (F64.of_Z x) (F64.of_Z y).

(** ** Dynamic values, errors and panics *)

Inductive value : Type :=
  | VNil
  | VPoint (p : Point)
  | VLinestring (l : Linestring)
  | VPolygon (p : Polygon)
  | VString (s : string)
  | VInt64 (n : Z)
  | VFloat64 (f : F64.t).

Inductive error : Type :=
  | errors_New (msg : string)
  | ErrInvalidArgumentNumber (fn expected : string) (got : Z).

Inductive panic : Type :=
  | IndexOutOfRange (index len : Z)
  | InterfaceConversion (wanted : string).

Inductive outcome (A : Type) : Type :=
  | Returns (a : A)
  | Panics (p : panic).

Arguments Returns {A} a.
Arguments Panics {A} p.

Definition obind {A B : Type} (m : outcome A) (k : A -> outcome B) : outcome B :=
  match m with
  | Returns a => k a
  | Panics p => Panics p
  end.

Notation "x <-! m ; k" := (obind m (fun x => k))
  (at level 100, m at next level, right associativity, only parsing).

(** [s[i]] on a slice: a panic outside [0 <= i < len(s)]. *)
Definition index {A : Type} (s : list A) (i : Z) : outcome A :=
  if (i <? 0) || (Z.of_nat (length s) <=? i) then
    Panics (IndexOutOfRange i (Z.of_nat (length s)))
  else
    match s !! Z.to_nat i with
    | Some a => Returns a
    | None => Panics (IndexOutOfRange i (Z.of_nat (length s)))
    end.

(** The single-result type assertion [v.(string)]. *)
Definition assert_string (v : value) : outcome string :=
  match v with
  | VString s => Returns s
  | _ => Panics (InterfaceConversion "string")
  end.

(** ** Wire values ([sqltypes.Value] of the vitess library)

    The library is not part of the repository: a wire value is a type tag
    with a byte payload, [Value{}] is its zero value, [NULL] the null marker
    and [MakeTrusted] the unchecked constructor, which maps the null type to
    [NULL]. *)

Inductive query_Type : Type := Null_type | Geometry.

Record sqltypes_Value : Type :=
  mkValue { typ : query_Type; val : list Byte.byte }.

Definition sqltypes_Value_zero : sqltypes_Value := mkValue Null_type [].
Definition sqltypes_NULL : sqltypes_Value := sqltypes_Value_zero.

Definition sqltypes_MakeTrusted (ty : query_Type) (b : list Byte.byte)
  : sqltypes_Value :=
  match ty with
  | Null_type => sqltypes_NULL
  | _ => mkValue ty b
  end.

(** ** [PointType] *)

(** Modelled from the spec: [compareNulls], the null-comparison helper of the
    [sql] package that every type descriptor shares, is not among the source
    files. It reports whether an operand is the null marker and, if so, how
    the two compare: "null is ordered consistently", "less than any non-null
    value". *)
Definition compareNulls (a b : value) : bool * Z :=
  match a, b with
  | VNil, VNil => (true, 0)
  | VNil, _ => (true, -1)
  | _, VNil => (true, 1)
  | _, _ => (false, 0)
  end.

Definition PointType_Compare (a b : value) : Z * option error :=
  let '(hasNulls, res) := compareNulls a b in
  if hasNulls then (res, None)
  else
    match a with
    | VPoint _a =>
      match b with
      | VPoint _b =>
        if F64.gtb (X _a) (X _b) then (1, None)
        else if F64.ltb (X _a) (X _b) then (-1, None)
        else if F64.gtb (Y _a) (Y _b) then (1, None)
        else if F64.ltb (Y _a) (Y _b) then (-1, None)
        else (0, None)
      | _ => (0, Some (errors_New "received a non-Point type"))
      end
    | _ => (0, Some (errors_New "received a non-Point type"))
    end.

Definition PointType_Convert (v : value) : value * option error :=
  match v with
  | VPoint p => (VPoint p, None)
  | _ => (VNil, Some (errors_New "can't convert to Point"))
  end.

Definition PointType_SQL (v : value) : outcome (sqltypes_Value * option error) :=
  match v with
  | VNil => Returns (sqltypes_NULL, None)
  | _ =>
    let '(pv, err) := PointType_Convert v in
    match err with
    | Some _ => Returns (sqltypes_Value_zero, None)
    | None =>
      s <-! assert_string pv;
      Returns (sqltypes_MakeTrusted Geometry (String.list_byte_of_string s), None)
    end
  end.

Definition PointType_String : string := "POINT".

Definition PointType_Type : query_Type := Geometry.

Definition PointType_Zero : value := VNil.

(** ** Geometric predicates *)

Definition Collinear : Z := 0.
Definition Clockwise : Z := 1.
Definition CounterClockwise : Z := 2.

Definition pointOrientation (p1 p2 p3 : Point) : Z :=
  let val := F64.sub (F64.mul (F64.sub (Y p2) (Y p1)) (F64.sub (X p3) (X p2)))
                     (F64.mul (F64.sub (Y p3) (Y p2)) (F64.sub (X p2) (X p1))) in
  if F64.eqb val F64.zero then 0
  else if F64.gtb val F64.zero then 1
  else 2.

Definition onSegment (a b c : Point) : bool :=
  F64.gtb (X c) (F64.Min (X a) (X b)) && F64.ltb (X c) (F64.Max (X a) (X b))
  && F64.gtb (Y c) (F64.Min (Y a) (Y b)) && F64.ltb (Y c) (F64.Max (Y a) (Y b)).

Definition lineSegmentsIntersect (a b c d : Point) : bool :=
  let abc := pointOrientation a b c in
  let abd := pointOrientation a b d in
  let cda := pointOrientation c d a in
  let cdb := pointOrientation c d b in
  if negb (abc =? abd) && negb (cda =? cdb) then true
  else if (abc =? 0) && onSegment a b c then true
  else if (abd =? 0) && onSegment a b d then true
  else if (cda =? 0) && onSegment c d a then true
  else if (cdb =? 0) && onSegment c d b then true
  else false.

(** The statements that follow [return true] in the source (the scan of all
    segment pairs) are unreachable and have no counterpart here. *)
Definition isLinearRing (line : Linestring) : outcome bool :=
  let numPoints := Z.of_nat (length (Points line)) in
  if negb (numPoints =? 0) && (numPoints <? 4) then Returns false
  else
    first <-! index (Points line) 0;
    last <-! index (Points line) (numPoints - 1);
    if Point_neb first last then Returns false
    else Returns true.

(** ** The [POLYGON(...)] constructor expression *)

Section Expressions.
Variables Row St : Type.

(** [sql.Expression], reduced to what the constructor asks of a child. *)
Record Expression : Type := mkExpression {
  expr_Eval : Row -> St -> (value * option error) * St;
  expr_Resolved : bool;
  expr_IsNullable : bool;
  expr_String : string
}.

(** The struct [function.Polygon]. *)
Record function_Polygon : Type := mkFunctionPolygon { args : list Expression }.

Definition loc : Type := positive.
Definition heap : Type := gmap loc function_Polygon.

Definition NewPolygon (args : list Expression) (h : heap)
  : (option loc * option error) * heap :=
  if Z.of_nat (length args) <? 1 then
    ((None,
      Some (ErrInvalidArgumentNumber "Polygon" "1 or more"
              (Z.of_nat (length args)))), h)
  else
    let l := fresh (dom h) in
    ((Some l, None), <[l := mkFunctionPolygon args]> h).

Definition Polygon_FunctionName : string := "polygon".

Definition Polygon_Children (l : function_Polygon) : list Expression := args l.

Fixpoint Polygon_Resolved_loop (xs : list Expression) : bool :=
  match xs with
  | [] => true
  | arg :: rest =>
    if negb (expr_Resolved arg) then false else Polygon_Resolved_loop rest
  end.

Definition Polygon_Resolved (l : function_Polygon) : bool :=
  Polygon_Resolved_loop (args l).

Fixpoint Polygon_IsNullable_loop (xs : list Expression) : bool :=
  match xs with
  | [] => false
  | arg :: rest =>
    if expr_IsNullable arg then true else Polygon_IsNullable_loop rest
  end.

Definition Polygon_IsNullable (l : function_Polygon) : bool :=
  Polygon_IsNullable_loop (args l).

(** The receiver is not read: the new node is built from [children] alone. *)
Definition Polygon_WithChildren (l : loc) (children : list Expression) (h : heap)
  : (option loc * option error) * heap :=
  NewPolygon children h.

(** The body of [for i, arg := range l.args] in [Eval]: [xs] are the
    arguments still to visit, [i] the index of the first of them and
    [lines] the array allocated before the loop. *)
Fixpoint Polygon_Eval_loop (xs : list Expression) (i : nat)
    (lines : list Linestring) (row : Row) (s : St)
  : outcome ((value * option error) * St) :=
  match xs with
  | [] => Returns ((VPolygon (mkPolygon lines), None), s)
  | arg :: rest =>
    let '((val, err), s1) := expr_Eval arg row s in
    match err with
    | Some e => Returns ((VNil, Some e), s1)
    | None =>
      match val with
      | VLinestring v =>
        ok <-! isLinearRing v;
        if ok then Polygon_Eval_loop rest (S i) (<[i := v]> lines) row s1
        else
          Returns ((VNil,
                    Some (errors_New
                            "polygon constructor encountered a non-linearring")),
                   s1)
      | _ =>
        Returns ((VNil,
                  Some (errors_New
                          "polygon constructor encountered a non-linestring")),
                 s1)
      end
    end
  end.

Definition Polygon_Eval (l : function_Polygon) (row : Row) (s : St)
  : outcome ((value * option error) * St) :=
  let lines := replicate (length (args l)) (mkLinestring []) in
  Polygon_Eval_loop (args l) 0 lines row s.
End Expressions.

Arguments mkExpression {Row St} _ _ _ _.
Arguments expr_Eval {Row St} _ _ _.
Arguments expr_Resolved {Row St} _.
Arguments expr_IsNullable {Row St} _.
Arguments expr_String {Row St} _.
Arguments mkFunctionPolygon {Row St} _.
Arguments args {Row St} _.
Arguments NewPolygon {Row St} _ _.
Arguments Polygon_Children {Row St} _.
Arguments Polygon_Resolved {Row St} _.
Arguments Polygon_IsNullable {Row St} _.
Arguments Polygon_WithChildren {Row St} _ _ _.
Arguments Polygon_Eval_loop {Row St} _ _ _ _ _.
Arguments Polygon_Eval {Row St} _ _ _.

(** ** Vocabulary of the statements *)

(** How the results of comparing [x] with [y], [y] with [z] and [x] with
    [z] fit together in a total preorder. *)
Definition cmp_compat (c1 c2 c3 : comparison) : Prop :=
  (c1 = Eq -> c3 = c2) /\ (c2 = Eq -> c3 = c1) /\ (c1 = c2 -> c3 = c1).

(** The integer [PointType.Compare] answers on two points. *)
Definition Compare_int (p q : Point) : Z :=
  fst (PointType_Compare (VPoint p) (VPoint q)).

(** The three-way results as the integers [Compare] returns. *)
Definition sign_of (c : comparison) : Z :=
  match c with Lt => -1 | Eq => 0 | Gt => 1 end.

Definition lex (a b : comparison) : comparison :=
  match a with Eq => b | _ => a end.

(** The vector from [p] to [q], and the cross product of two plane vectors:
    [u x v = u.x * v.y - u.y * v.x], in float64 arithmetic. *)
Definition vec (p q : Point) : F64.t * F64.t :=
  (F64.sub (X q) (X p), F64.sub (Y q) (Y p)).

Definition cross (u v : F64.t * F64.t) : F64.t :=
  F64.sub (F64.mul (fst u) (snd v)) (F64.mul (snd u) (fst v)).

(** [eval_rings xs row s]: the children [xs], evaluated on [row] one after
    the other from the state [s], each return with a nil error a Linestring
    that [isLinearRing] accepts. The result is the list of these Linestrings,
    in this order, and the state after the last evaluation. *)
Fixpoint eval_rings {Row St : Type} (xs : list (Expression Row St))
    (row : Row) (s : St) : option (list Linestring * St) :=
  match xs with
  | [] => Some ([], s)
  | x :: rest =>
    match expr_Eval x row s with
    | ((VLinestring v, None), s1) =>
      match isLinearRing v with
      | Returns true =>
        match eval_rings rest row s1 with
        | Some (ls, s2) => Some (v :: ls, s2)
        | None => None
        end
      | _ => None
      end
    | _ => None
    end
  end.

Definition ErrNonLinestring : error :=
  errors_New "polygon constructor encountered a non-linestring".

Definition ErrNonLinearRing : error :=
  errors_New "polygon constructor encountered a non-linearring".

(** The bounding boxes of the segments [ab] and [cd] are strictly apart on
    the X axis or on the Y axis. *)
Definition boxes_apart (a b c d : Point) : bool :=
  F64.ltb (F64.Max (X a) (X b)) (F64.Min (X c) (X d))
  || F64.ltb (F64.Max (X c) (X d)) (F64.Min (X a) (X b))
  || F64.ltb (F64.Max (Y a) (Y b)) (F64.Min (Y c) (Y d))
  || F64.ltb (F64.Max (Y c) (Y d)) (F64.Min (Y a) (Y b)).

(** ** Sample data *)

(** A closed ring of four points, an open path, and a closed path whose
    first and third segments cross. *)
Definition closed_ring : Linestring :=
  mkLinestring [pt 0 0; pt 0 1; pt 1 1; pt 0 0].

Definition open_path : Linestring :=
  mkLinestring [pt 0 0; pt 0 1; pt 1 1; pt 1 0].

Definition bow_tie : Linestring :=
  mkLinestring [pt 0 0; pt 2 2; pt 2 0; pt 0 2; pt 0 0].

(** A child expression over rows of type [unit] that returns [(v, err)] and
    records its [tag] in the state, a log of the evaluations so far (latest
    first). *)
Definition logged (tag : nat) (nullable : bool) (v : value) (err : option error)
  : Expression unit (list nat) :=
  mkExpression (fun _ s => ((v, err), tag :: s)) true nullable "arg".

(** A heap with one constructor node, at location 1, and the children a
    rebuilt node is given. *)
Definition sample_node : function_Polygon unit (list nat) :=
  mkFunctionPolygon [logged 1 false VNil None].

Definition sample_heap : gmap positive (function_Polygon unit (list nat)) :=
  <[1%positive := sample_node]> ∅.

Definition sample_children : list (Expression unit (list nat)) :=
  [logged 2 false (VLinestring closed_ring) None].

(** The heap before any constructor node was made. *)
Definition empty_heap : gmap positive (function_Polygon unit (list nat)) := ∅.

(** ** Vocabulary of the further properties *)

(** No coordinate of the point is a NaN (infinite coordinates are allowed);
    some coordinate is a NaN. *)
Definition Point_no_NaN (p : Point) : bool :=
  negb (F64.IsNaN (X p)) && negb (F64.IsNaN (Y p)).

Definition Point_has_NaN (p : Point) : bool :=
  F64.IsNaN (X p) || F64.IsNaN (Y p).

(** The value whose sign [pointOrientation] classifies. *)
Definition orientation_val (p1 p2 p3 : Point) : F64.t :=
  F64.sub (F64.mul (F64.sub (Y p2) (Y p1)) (F64.sub (X p3) (X p2)))
          (F64.mul (F64.sub (Y p3) (Y p2)) (F64.sub (X p2) (X p1))).

(** Two float64 that are the same, or both a zero (of any sign). *)
Definition same_value (x y : F64.t) : Prop :=
  x = y \/ exists s s', x = S754_zero s /\ y = S754_zero s'.

(** Points with an infinite coordinate. *)
Definition pt_neg_inf : Point := mkPoint (S754_infinity true) F64.zero.
Definition pt_pos_inf : Point := mkPoint (S754_infinity false) F64.zero.

(** * Properties *)

(** ** float64 comparison *)

Section Float64Order.
Implicit Types x y z : F64.t.

Lemma SFcompare_swap x y : SFcompare y x = CompOpp <$> SFcompare x y.
Proof.
  destruct x as [sx|sx| |sx mx ex], y as [sy|sy| |sy my ey];
    try destruct sx; try destruct sy; try reflexivity; simpl;
    change (Pos.compare_cont Eq my mx) with (my ?= mx)%positive;
    change (Pos.compare_cont Eq mx my) with (mx ?= my)%positive;
    rewrite (Z.compare_antisym ey ex), (Pos.compare_antisym mx my);
    destruct (ey ?= ex); simpl; try reflexivity;
    destruct (mx ?= my)%positive; reflexivity.
Qed.

Lemma SFcompare_defined x y :
  F64.IsNaN x = false -> F64.IsNaN y = false -> is_Some (SFcompare x y).
Proof.
  destruct x, y; simpl; intros; try discriminate; eauto.
Qed.

Lemma SFcompare_refl x : F64.IsNaN x = false -> SFcompare x x = Some Eq.
Proof.
  destruct x as [s|s| |s m e]; simpl; intros; try discriminate;
    try destruct s; try reflexivity;
    rewrite Z.compare_refl; change (Pos.compare_cont Eq m m) with (m ?= m)%positive;
    rewrite Pos.compare_refl; reflexivity.
Qed.

Ltac split_compare :=
  repeat match goal with
    | |- context [Pos.compare_cont Eq ?a ?b] =>
      change (Pos.compare_cont Eq a b) with (a ?= b)%positive
    | |- context [(?a ?= ?b)%positive] =>
      destruct (Pos.compare_spec a b); subst; simpl;
      try rewrite !Pos.compare_refl; try rewrite !Z.compare_refl
    | |- context [?a ?= ?b] =>
      destruct (Z.compare_spec a b); subst; simpl;
      try rewrite !Pos.compare_refl; try rewrite !Z.compare_refl
    end.

Lemma SFcompare_trans x y z c1 c2 :
  SFcompare x y = Some c1 -> SFcompare y z = Some c2 ->
  exists c3, SFcompare x z = Some c3 /\ cmp_compat c1 c2 c3.
Proof.
  intros H1 H2.
  cut (match SFcompare x y, SFcompare y z, SFcompare x z with
       | Some a, Some b, Some c => cmp_compat a b c
       | Some _, Some _, None => False
       | _, _, _ => True
       end).
  { rewrite H1, H2. destruct (SFcompare x z); [eauto | tauto]. }
  clear H1 H2 c1 c2. unfold cmp_compat.
  destruct x as [sx|sx| |sx mx ex], y as [sy|sy| |sy my ey],
           z as [sz|sz| |sz mz ez];
    try destruct sx; try destruct sy; try destruct sz; simpl;
    try tauto; try (repeat split; congruence);
    split_compare; try lia; repeat split; congruence.
Qed.
End Float64Order.

(** ** [PointType.Compare] *)

Lemma gtb_ltb x y : F64.gtb x y = F64.ltb y x.
Proof.
  unfold F64.gtb, F64.ltb, SFltb. rewrite (SFcompare_swap x y).
  destruct (SFcompare x y) as [[]|]; reflexivity.
Qed.

Lemma finite_not_NaN x : F64.finite x = true -> F64.IsNaN x = false.
Proof. destruct x; simpl; congruence. Qed.

Lemma Compare_lex p q a b :
  SFcompare (X p) (X q) = Some a -> SFcompare (Y p) (Y q) = Some b ->
  PointType_Compare (VPoint p) (VPoint q) = (sign_of (lex a b), None).
Proof.
  intros Ha Hb. unfold PointType_Compare, F64.gtb, F64.ltb, SFltb; simpl.
  rewrite Ha, Hb. destruct a, b; reflexivity.
Qed.

Lemma Compare_finite p q :
  Point_finite p = true -> Point_finite q = true ->
  exists a b, SFcompare (X p) (X q) = Some a /\ SFcompare (Y p) (Y q) = Some b.
Proof.
  unfold Point_finite. intros [Hpx Hpy]%andb_prop [Hqx Hqy]%andb_prop.
  destruct (SFcompare_defined (X p) (X q)) as [a Ha]; auto using finite_not_NaN.
  destruct (SFcompare_defined (Y p) (Y q)) as [b Hb]; auto using finite_not_NaN.
  eauto.
Qed.

(** C6. On points with finite coordinates [PointType.Compare] succeeds and
    is the lexicographic order on (X, Y): it answers -1, 0 or 1 with a nil
    error; a point compares equal to itself; swapping the operands negates
    the answer; the order is transitive (in its weak, strict and equality
    forms); and the answer is 1, -1 or 0 exactly when X is greater, or equal
    with Y greater; X is less, or equal with Y less; X and Y are both equal. *)
Theorem PointType_Compare_total_order (p q r : Point) :
  Point_finite p = true -> Point_finite q = true -> Point_finite r = true ->
  (exists c, PointType_Compare (VPoint p) (VPoint q) = (c, None)
             /\ (c = -1 \/ c = 0 \/ c = 1)) /\
  PointType_Compare (VPoint p) (VPoint p) = (0, None) /\
  Compare_int p q = - Compare_int q p /\
  (Compare_int p q <= 0 -> Compare_int q r <= 0 -> Compare_int p r <= 0) /\
  (Compare_int p q < 0 -> Compare_int q r <= 0 -> Compare_int p r < 0) /\
  (Compare_int p q <= 0 -> Compare_int q r < 0 -> Compare_int p r < 0) /\
  (Compare_int p q = 0 -> Compare_int q r = 0 -> Compare_int p r = 0) /\
  (Compare_int p q = 1 <->
     F64.gtb (X p) (X q) = true
     \/ (F64.eqb (X p) (X q) = true /\ F64.gtb (Y p) (Y q) = true)) /\
  (Compare_int p q = -1 <->
     F64.ltb (X p) (X q) = true
     \/ (F64.eqb (X p) (X q) = true /\ F64.ltb (Y p) (Y q) = true)) /\
  (Compare_int p q = 0 <->
     F64.eqb (X p) (X q) = true /\ F64.eqb (Y p) (Y q) = true).
Proof.
  intros Hp Hq Hr.
  destruct (Compare_finite p q Hp Hq) as (a1 & b1 & Ha1 & Hb1).
  destruct (Compare_finite q r Hq Hr) as (a2 & b2 & Ha2 & Hb2).
  destruct (SFcompare_trans _ _ _ _ _ Ha1 Ha2) as (a3 & Ha3 & Ca).
  destruct (SFcompare_trans _ _ _ _ _ Hb1 Hb2) as (b3 & Hb3 & Cb).
  assert (Hqp : PointType_Compare (VPoint q) (VPoint p)
                = (sign_of (lex (CompOpp a1) (CompOpp b1)), None)).
  { apply Compare_lex; rewrite SFcompare_swap; [rewrite Ha1 | rewrite Hb1];
      reflexivity. }
  assert (Hpp : PointType_Compare (VPoint p) (VPoint p) = (0, None)).
  { unfold Point_finite in Hp. apply andb_prop in Hp as [Hx Hy].
    apply (Compare_lex p p Eq Eq); apply SFcompare_refl, finite_not_NaN;
      assumption. }
  unfold Compare_int, F64.gtb, F64.ltb, F64.eqb, SFltb, SFeqb.
  rewrite Hqp, (Compare_lex p q a1 b1 Ha1 Hb1), (Compare_lex q r a2 b2 Ha2 Hb2),
    (Compare_lex p r a3 b3 Ha3 Hb3), Ha1, Hb1.
  clear Hqp Ha1 Hb1 Ha2 Hb2 Ha3 Hb3 Hp Hq Hr.
  destruct Ca as (Ca1 & Ca2 & Ca3), Cb as (Cb1 & Cb2 & Cb3).
  split; [exists (sign_of (lex a1 b1)); split;
          [reflexivity | destruct a1, b1; simpl; lia] |].
  split; [exact Hpp |].
  split; [destruct a1, b1; reflexivity |].
  repeat split;
    destruct a1, b1; simpl; try lia; try tauto; try discriminate;
    try (intros [?|[? ?]]; discriminate);
    destruct a2, b2; simpl; try lia;
    destruct a3, b3; simpl; try lia;
    try (specialize (Ca1 eq_refl)); try (specialize (Ca2 eq_refl));
    try (specialize (Ca3 eq_refl)); try (specialize (Cb1 eq_refl));
    try (specialize (Cb2 eq_refl)); try (specialize (Cb3 eq_refl));
    discriminate.
Qed.

Lemma PointType_Compare_total_order_witness :
  Compare_int (pt 0 0) (pt 1 0) = - Compare_int (pt 1 0) (pt 0 0)
  /\ Compare_int (pt 0 0) (pt 1 2) < 0
  /\ (Compare_int (pt 0 0) (pt 1 0) = -1 <->
        F64.ltb (X (pt 0 0)) (X (pt 1 0)) = true
        \/ (F64.eqb (X (pt 0 0)) (X (pt 1 0)) = true
            /\ F64.ltb (Y (pt 0 0)) (Y (pt 1 0)) = true)).
Proof.
  destruct (PointType_Compare_total_order (pt 0 0) (pt 1 0) (pt 1 2)
              eq_refl eq_refl eq_refl)
    as (_ & _ & Hswap & _ & Hstrict & _ & _ & _ & Hlt & _).
  split; [exact Hswap |].
  split; [apply Hstrict; vm_compute; congruence | exact Hlt].
Defined.

(** C9. With NaN in both coordinates every comparison of [Compare] is false
    and the fall-through answers "equal": [Compare(Point{NaN, NaN}, q)] is
    [(0, nil)] for every point [q]. The equality that [Compare] induces is
    then neither point equality (two points that Go's [==] tells apart
    compare equal, both ways round) nor transitive, so [Compare] is not a
    total order on all points. *)
Theorem PointType_Compare_NaN :
  (forall q : Point,
     PointType_Compare (VPoint (mkPoint F64.NaN F64.NaN)) (VPoint q) = (0, None))
  /\ (exists p q, Compare_int p q = 0 /\ Compare_int q p = 0
                  /\ Point_eqb p q = false)
  /\ (exists p q r, Compare_int p q = 0 /\ Compare_int q r = 0
                    /\ Compare_int p r <> 0).
Proof.
  split; [intros q; reflexivity |].
  split.
  - exists (mkPoint F64.NaN F64.NaN), (pt 1 1). repeat split.
  - exists (pt 0 0), (mkPoint F64.NaN F64.NaN), (pt 1 1).
    repeat split. vm_compute. discriminate.
Qed.

(** ** [isLinearRing] *)

Lemma index_lookup {A : Type} (s : list A) (i : nat) (a : A) :
  s !! i = Some a -> index s (Z.of_nat i) = Returns a.
Proof.
  intros H. pose proof (lookup_lt_Some _ _ _ H) as Hlt. unfold index.
  replace (Z.of_nat i <? 0) with false by (symmetry; apply Z.ltb_ge; lia).
  replace (Z.of_nat (length s) <=? Z.of_nat i) with false
    by (symmetry; apply Z.leb_gt; lia).
  simpl. rewrite Nat2Z.id, H. reflexivity.
Qed.

Lemma isLinearRing_short (line : Linestring) :
  (1 <= length (Points line) <= 3)%nat -> isLinearRing line = Returns false.
Proof.
  intros H. unfold isLinearRing.
  replace (Z.of_nat (length (Points line)) =? 0) with false
    by (symmetry; apply Z.eqb_neq; lia).
  replace (Z.of_nat (length (Points line)) <? 4) with true
    by (symmetry; apply Z.ltb_lt; lia).
  reflexivity.
Qed.

Lemma isLinearRing_long (line : Linestring) (first lst : Point) :
  (4 <= length (Points line))%nat ->
  head (Points line) = Some first -> last (Points line) = Some lst ->
  isLinearRing line = Returns (Point_eqb first lst).
Proof.
  intros H Hh Hl. unfold isLinearRing.
  replace (Z.of_nat (length (Points line)) <? 4) with false
    by (symmetry; apply Z.ltb_ge; lia).
  rewrite andb_false_r.
  rewrite head_lookup in Hh. rewrite last_lookup in Hl.
  change (index (Points line) 0) with (index (Points line) (Z.of_nat 0)).
  rewrite (index_lookup _ 0%nat first Hh).
  replace (Z.of_nat (length (Points line)) - 1)
    with (Z.of_nat (Init.Nat.pred (length (Points line)))) by lia.
  rewrite (index_lookup _ _ lst Hl). simpl.
  unfold Point_neb. destruct (Point_eqb first lst); reflexivity.
Qed.

Lemma isLinearRing_empty : isLinearRing (mkLinestring []) = Panics (IndexOutOfRange 0 0).
Proof. reflexivity. Qed.

(** C2. On a Linestring with at least one point, [isLinearRing] answers
    false when there are one to three points; with four or more points it
    answers whether the first point equals the last (Go's [==] on points):
    false when they differ, true when they are equal. Nothing else is looked
    at: the closed path [bow_tie], whose first and third segments cross, is
    accepted, as is the closed ring (0,0),(0,1),(1,1),(0,0); the open path
    (0,0),(0,1),(1,1),(1,0) is rejected. *)
Theorem isLinearRing_closure (line : Linestring) :
  Points line <> [] ->
  ((length (Points line) <= 3)%nat -> isLinearRing line = Returns false)
  /\ ((4 <= length (Points line))%nat ->
      forall first lst,
        head (Points line) = Some first -> last (Points line) = Some lst ->
        (Point_eqb first lst = false -> isLinearRing line = Returns false)
        /\ (Point_eqb first lst = true -> isLinearRing line = Returns true))
  /\ (lineSegmentsIntersect (pt 0 0) (pt 2 2) (pt 2 0) (pt 0 2) = true
      /\ isLinearRing bow_tie = Returns true)
  /\ isLinearRing closed_ring = Returns true
  /\ isLinearRing open_path = Returns false.
Proof.
  intros Hne. split; [| split; [| split; [| split]]].
  - intros H. apply isLinearRing_short. destruct (Points line); [congruence|].
    simpl in *. lia.
  - intros H first lst Hh Hl. rewrite (isLinearRing_long line first lst H Hh Hl).
    split; intros ->; reflexivity.
  - split; vm_compute; reflexivity.
  - vm_compute; reflexivity.
  - vm_compute; reflexivity.
Qed.

Lemma isLinearRing_closure_witness :
  (forall first lst,
     head (Points bow_tie) = Some first -> last (Points bow_tie) = Some lst ->
     (Point_eqb first lst = false -> isLinearRing bow_tie = Returns false)
     /\ (Point_eqb first lst = true -> isLinearRing bow_tie = Returns true))
  /\ isLinearRing (mkLinestring [pt 0 0; pt 1 1; pt 0 0]) = Returns false.
Proof.
  split.
  - assert (Hne : Points bow_tie <> []) by discriminate.
    destruct (isLinearRing_closure bow_tie Hne) as (_ & H & _).
    apply H. simpl. lia.
  - assert (Hne : Points (mkLinestring [pt 0 0; pt 1 1; pt 0 0]) <> [])
      by discriminate.
    destruct (isLinearRing_closure _ Hne) as (H & _).
    apply H. simpl. lia.
Defined.

(** ** [Polygon.Eval] *)

Section PolygonEval.
Context {Row St : Type}.
Implicit Types (xs pre post rest : list (Expression Row St)).
Implicit Types (c : Expression Row St) (row : Row) (s : St).
Implicit Types (done ls : list Linestring).

(** Once the children [pre] have all produced rings, the loop stands at the
    first of the remaining children, the rings stored in order in front of
    the still untouched part of the array. *)
Lemma Polygon_Eval_loop_rings pre : forall rest done (k : nat) row s ls s1,
  eval_rings pre row s = Some (ls, s1) ->
  Polygon_Eval_loop (pre ++ rest) (length done)
    (done ++ replicate (length pre + k) (mkLinestring [])) row s
  = Polygon_Eval_loop rest (length done + length pre)
      ((done ++ ls) ++ replicate k (mkLinestring [])) row s1.
Proof.
  induction pre as [|x pre IH]; intros rest done k row s ls s1 H; simpl in H.
  - injection H as <- <-. simpl. rewrite Nat.add_0_r, app_nil_r. reflexivity.
  - destruct (expr_Eval x row s) as [[v err] s'] eqn:Hx.
    destruct v as [| |v| | | |]; try discriminate.
    destruct err; try discriminate.
    destruct (isLinearRing v) as [[|]|] eqn:Hv; try discriminate.
    destruct (eval_rings pre row s') as [[ls' s2]|] eqn:Hpre; try discriminate.
    injection H as <- <-. simpl. rewrite Hx, Hv. simpl.
    rewrite insert_app_r_alt by lia. rewrite Nat.sub_diag. simpl.
    pose proof (IH rest (done ++ [v]) k row s' ls' s2 Hpre) as E.
    rewrite length_app, <- !app_assoc in E. simpl in E.
    rewrite Nat.add_1_r in E. rewrite E. rewrite <- !app_assoc. simpl.
    f_equal. lia.
Qed.

Lemma Polygon_Eval_prefix pre c post row s ls s1 :
  eval_rings pre row s = Some (ls, s1) ->
  Polygon_Eval (mkFunctionPolygon (pre ++ c :: post)) row s
  = Polygon_Eval_loop (c :: post) (length pre)
      (ls ++ replicate (S (length post)) (mkLinestring [])) row s1.
Proof.
  intros H. unfold Polygon_Eval. simpl args. rewrite length_app. simpl length.
  apply (Polygon_Eval_loop_rings pre (c :: post) [] (S (length post)) row s ls s1 H).
Qed.

Lemma Polygon_Eval_all xs row s ls s1 :
  eval_rings xs row s = Some (ls, s1) ->
  Polygon_Eval (mkFunctionPolygon xs) row s
  = Returns ((VPolygon (mkPolygon ls), None), s1).
Proof.
  intros H. unfold Polygon_Eval. simpl args.
  pose proof (Polygon_Eval_loop_rings xs [] [] 0%nat row s ls s1 H) as E.
  rewrite app_nil_r, Nat.add_0_r in E. simpl in E. rewrite E, app_nil_r.
  reflexivity.
Qed.

(** Whatever the loop returns with an error carries the nil value. *)
Lemma Polygon_Eval_loop_error xs : forall (i : nat) lines row s r e s1,
  Polygon_Eval_loop xs i lines row s = Returns ((r, Some e), s1) -> r = VNil.
Proof.
  induction xs as [|x xs IH]; intros i lines row s r e s1 H; simpl in H.
  - discriminate.
  - destruct (expr_Eval x row s) as [[v err] s'].
    destruct err; [congruence |].
    destruct v; try congruence.
    destruct (isLinearRing l) as [[|]|]; simpl in H; try congruence.
    eapply IH, H.
Qed.

(** Whatever the loop returns without an error comes from children that all
    produced rings. *)
Lemma Polygon_Eval_loop_success xs : forall (i : nat) lines row s r s1,
  Polygon_Eval_loop xs i lines row s = Returns ((r, None), s1) ->
  exists ls, eval_rings xs row s = Some (ls, s1).
Proof.
  induction xs as [|x xs IH]; intros i lines row s r s1 H; simpl in H.
  - injection H as _ <-. simpl. eauto.
  - simpl. destruct (expr_Eval x row s) as [[v err] s'].
    destruct err; [congruence |].
    destruct v; try congruence.
    destruct (isLinearRing l) as [[|]|]; simpl in H; try congruence.
    destruct (IH _ _ _ _ _ _ H) as [ls ->]. eauto.
Qed.

Lemma Polygon_Eval_success (l : function_Polygon Row St) row s r s1 :
  Polygon_Eval l row s = Returns ((r, None), s1) ->
  exists ls, eval_rings (args l) row s = Some (ls, s1)
             /\ r = VPolygon (mkPolygon ls).
Proof.
  intros H. destruct (Polygon_Eval_loop_success _ _ _ _ _ _ _ H) as [ls Hls].
  exists ls. split; [exact Hls |].
  destruct l as [xs]. simpl in Hls.
  rewrite (Polygon_Eval_all xs row s ls s1 Hls) in H. congruence.
Qed.
End PolygonEval.

Lemma Polygon_IsNullable_loop_spec {Row St : Type} (xs : list (Expression Row St)) :
  Polygon_IsNullable_loop Row St xs = true
  <-> exists c, elem_of c xs /\ expr_IsNullable c = true.
Proof.
  induction xs as [|x xs IH]; simpl.
  - split; [discriminate | intros (c & Hc & _); inversion Hc].
  - destruct (expr_IsNullable x) eqn:Hx.
    + split; [intros _; exists x; split; [constructor | exact Hx] | reflexivity].
    + rewrite IH. split; intros (c & Hc & Hn).
      * exists c. split; [constructor 2; exact Hc | exact Hn].
      * inversion Hc; subst; [congruence | eauto].
Qed.

(** C1. [Polygon.Eval] visits its children in argument order, each one in
    the state its predecessor left. When the children before [c] have all
    produced linear rings and [c] is evaluated next: an evaluation error of
    [c] is returned as it is; a value of [c] that is not a Linestring gives
    the "non-linestring" error; a Linestring that [isLinearRing] rejects
    gives the "non-linearring" error. In all three cases the state is the
    one [c] left, so no later child is evaluated. When every child produces
    a linear ring the result is the Polygon of exactly these Linestrings, in
    argument order. A result with an error carries the nil value, and a
    result without an error is the Polygon of all the children's rings. *)
Theorem Polygon_Eval_spec {Row St : Type}
    (l : function_Polygon Row St) (row : Row) (s : St) :
  (forall pre c post ls s1 v err s2,
     args l = pre ++ c :: post ->
     eval_rings pre row s = Some (ls, s1) ->
     expr_Eval c row s1 = ((v, err), s2) ->
     (forall e, err = Some e ->
        Polygon_Eval l row s = Returns ((VNil, Some e), s2))
     /\ (err = None -> (forall ln, v <> VLinestring ln) ->
         Polygon_Eval l row s = Returns ((VNil, Some ErrNonLinestring), s2))
     /\ (forall ln, err = None -> v = VLinestring ln ->
         isLinearRing ln = Returns false ->
         Polygon_Eval l row s = Returns ((VNil, Some ErrNonLinearRing), s2)))
  /\ (forall ls s1,
        eval_rings (args l) row s = Some (ls, s1) ->
        Polygon_Eval l row s = Returns ((VPolygon (mkPolygon ls), None), s1))
  /\ (forall r e s1,
        Polygon_Eval l row s = Returns ((r, Some e), s1) -> r = VNil)
  /\ (forall r s1,
        Polygon_Eval l row s = Returns ((r, None), s1) ->
        exists ls, eval_rings (args l) row s = Some (ls, s1)
                   /\ r = VPolygon (mkPolygon ls)).
Proof.
  destruct l as [xs]. simpl args. split; [| split; [| split]].
  - intros pre c post ls s1 v err s2 -> Hpre Hc.
    rewrite (Polygon_Eval_prefix _ _ _ _ _ _ _ Hpre). simpl. rewrite Hc.
    split; [| split].
    + intros e ->. reflexivity.
    + intros -> Hv. destruct v as [| |ln| | | |]; try reflexivity.
      destruct (Hv ln eq_refl).
    + intros ln -> -> Hr. rewrite Hr. reflexivity.
  - intros ls s1 H. apply Polygon_Eval_all, H.
  - intros r e s1 H. eapply Polygon_Eval_loop_error, H.
  - intros r s1 H. apply (Polygon_Eval_success _ _ _ _ _ H).
Qed.

Lemma Polygon_Eval_spec_witness :
  Polygon_Eval
    (mkFunctionPolygon [logged 1 false (VLinestring closed_ring) None;
                        logged 2 false VNil (Some (errors_New "child failed"));
                        logged 3 false (VLinestring closed_ring) None])
    () []
  = Returns ((VNil, Some (errors_New "child failed")), [2; 1]%nat).
Proof.
  pose proof (Polygon_Eval_spec
    (mkFunctionPolygon [logged 1 false (VLinestring closed_ring) None;
                        logged 2 false VNil (Some (errors_New "child failed"));
                        logged 3 false (VLinestring closed_ring) None])
    () []) as (H & _).
  apply (H [logged 1 false (VLinestring closed_ring) None]
           (logged 2 false VNil (Some (errors_New "child failed")))
           [logged 3 false (VLinestring closed_ring) None]
           [closed_ring] [1%nat] VNil (Some (errors_New "child failed"))
           [2; 1]%nat);
    reflexivity.
Defined.

(** C7. [isLinearRing] has no guard for the empty Linestring: the length
    check lets zero points through and the closure check then reads index 0
    of an empty slice, which panics. So does [Polygon.Eval] as soon as a
    child that it evaluates returns the empty Linestring: neither a boolean
    nor an error comes back. *)
Theorem Polygon_Eval_empty_ring_panics {Row St : Type}
    (pre post : list (Expression Row St)) (c : Expression Row St)
    (row : Row) (s s1 s2 : St) (ls : list Linestring) :
  eval_rings pre row s = Some (ls, s1) ->
  expr_Eval c row s1 = ((VLinestring (mkLinestring []), None), s2) ->
  isLinearRing (mkLinestring []) = Panics (IndexOutOfRange 0 0)
  /\ Polygon_Eval (mkFunctionPolygon (pre ++ c :: post)) row s
     = Panics (IndexOutOfRange 0 0).
Proof.
  intros Hpre Hc. split; [reflexivity |].
  rewrite (Polygon_Eval_prefix _ _ _ _ _ _ _ Hpre). simpl. rewrite Hc.
  reflexivity.
Qed.

Lemma Polygon_Eval_empty_ring_panics_witness :
  isLinearRing (mkLinestring []) = Panics (IndexOutOfRange 0 0)
  /\ Polygon_Eval
       (mkFunctionPolygon
          ([logged 1 false (VLinestring closed_ring) None]
           ++ logged 2 false (VLinestring (mkLinestring [])) None
           :: [logged 3 false (VLinestring closed_ring) None]))
       () []
     = Panics (IndexOutOfRange 0 0).
Proof.
  apply (Polygon_Eval_empty_ring_panics
           [logged 1 false (VLinestring closed_ring) None]
           [logged 3 false (VLinestring closed_ring) None]
           (logged 2 false (VLinestring (mkLinestring [])) None)
           () [] [1%nat] [2; 1]%nat [closed_ring]);
    reflexivity.
Defined.

(** C10. A child that [Polygon.Eval] evaluates and that returns nil (SQL
    NULL) with a nil error falls into the default branch of the type switch:
    the result is the "non-linestring" error. [Eval] never returns the nil
    value with a nil error, whatever [IsNullable] says, and [IsNullable] is
    true exactly when some child is nullable. *)
Theorem Polygon_Eval_nil_child {Row St : Type}
    (l : function_Polygon Row St) (row : Row) (s : St) :
  (forall pre c post ls s1 s2,
     args l = pre ++ c :: post ->
     eval_rings pre row s = Some (ls, s1) ->
     expr_Eval c row s1 = ((VNil, None), s2) ->
     Polygon_Eval l row s = Returns ((VNil, Some ErrNonLinestring), s2))
  /\ (forall s1, Polygon_Eval l row s <> Returns ((VNil, None), s1))
  /\ (Polygon_IsNullable l = true
      <-> exists c, elem_of c (args l) /\ expr_IsNullable c = true).
Proof.
  split; [| split].
  - intros pre c post ls s1 s2 Hl Hpre Hc. destruct l as [xs]. simpl in Hl.
    subst xs. rewrite (Polygon_Eval_prefix _ _ _ _ _ _ _ Hpre). simpl.
    rewrite Hc. reflexivity.
  - intros s1 H. destruct (Polygon_Eval_success _ _ _ _ _ H) as (ls & _ & Hr).
    discriminate.
  - apply Polygon_IsNullable_loop_spec.
Qed.

Lemma Polygon_Eval_nil_child_witness :
  Polygon_IsNullable
    (mkFunctionPolygon [logged 1 false (VLinestring closed_ring) None;
                        logged 2 true VNil None]) = true
  /\ Polygon_Eval
       (mkFunctionPolygon [logged 1 false (VLinestring closed_ring) None;
                           logged 2 true VNil None])
       () []
     = Returns ((VNil, Some ErrNonLinestring), [2; 1]%nat).
Proof.
  split; [reflexivity |].
  pose proof (Polygon_Eval_nil_child
    (mkFunctionPolygon [logged 1 false (VLinestring closed_ring) None;
                        logged 2 true VNil None]) () []) as (H & _).
  apply (H [logged 1 false (VLinestring closed_ring) None]
           (logged 2 true VNil None) [] [closed_ring] [1%nat] [2; 1]%nat);
    reflexivity.
Defined.

(** ** [NewPolygon] and [Polygon.WithChildren] *)

(** C8. On any heap, the empty one of a first call included, [NewPolygon]
    with no child fails with the argument-count error and allocates nothing;
    with one child or more it succeeds and returns a freshly allocated node
    holding these children. [WithChildren] is [NewPolygon] on the new
    children, whatever the receiver: the same check applies. When the
    receiver is a node of the heap, the node [WithChildren] returns is not
    the receiver, and the receiver still holds the children it had. *)
Theorem NewPolygon_arity {Row St : Type} (h : heap Row St)
    (children : list (Expression Row St)) :
  NewPolygon [] h
  = ((None, Some (ErrInvalidArgumentNumber "Polygon" "1 or more" 0)), h)
  /\ (children <> [] ->
      exists l', NewPolygon children h
                 = ((Some l', None), <[l' := mkFunctionPolygon children]> h)
                 /\ h !! l' = None)
  /\ (forall l : loc,
        Polygon_WithChildren l children h = NewPolygon children h)
  /\ (forall l : loc,
        Polygon_WithChildren l [] h
        = ((None, Some (ErrInvalidArgumentNumber "Polygon" "1 or more" 0)), h))
  /\ (forall (l : loc) (orig : function_Polygon Row St) r e h',
        h !! l = Some orig ->
        Polygon_WithChildren l children h = ((r, e), h') ->
        h' !! l = Some orig
        /\ match r with
           | Some l' =>
             l' <> l /\ h' !! l' = Some (mkFunctionPolygon children)
             /\ e = None /\ children <> []
           | None =>
             children = [] /\ h' = h
             /\ e = Some (ErrInvalidArgumentNumber "Polygon" "1 or more" 0)
           end).
Proof.
  unfold heap, loc in *.
  assert (Hfresh : h !! fresh (dom h) = None)
    by (apply not_elem_of_dom_1, is_fresh).
  split; [reflexivity |].
  split; [| split; [reflexivity | split; [reflexivity |]]].
  - intros Hne. exists (fresh (dom h)). split; [| exact Hfresh].
    destruct children as [|c cs]; [congruence |]. unfold NewPolygon.
    replace (Z.of_nat (length (c :: cs)) <? 1) with false
      by (symmetry; apply Z.ltb_ge; simpl length; lia).
    reflexivity.
  - intros l orig r e h' Hl H. unfold Polygon_WithChildren, NewPolygon in H.
    destruct children as [|c cs].
    + simpl in H. injection H as <- <- <-. auto.
    + replace (Z.of_nat (length (c :: cs)) <? 1) with false in H
        by (symmetry; apply Z.ltb_ge; simpl length; lia).
      injection H as <- <- <-. unfold heap, loc in *.
      assert (Hd : fresh (dom h) <> l) by congruence.
      rewrite lookup_insert_ne by exact Hd.
      split; [exact Hl |]. split; [exact Hd |].
      split; [apply lookup_insert_eq |]. split; [reflexivity | discriminate].
Qed.

Lemma NewPolygon_arity_witness :
  (exists l',
     NewPolygon sample_children empty_heap
     = ((Some l', None), <[l' := mkFunctionPolygon sample_children]> empty_heap)
     /\ empty_heap !! l' = None)
  /\ Polygon_WithChildren 1%positive sample_children sample_heap
     = NewPolygon sample_children sample_heap
  /\ exists l',
       NewPolygon sample_children sample_heap
       = ((Some l', None), <[l' := mkFunctionPolygon sample_children]> sample_heap)
       /\ sample_heap !! l' = None.
Proof.
  destruct (NewPolygon_arity empty_heap sample_children) as (_ & Hfirst & _).
  destruct (NewPolygon_arity sample_heap sample_children)
    as (_ & Hnew & Hwith & _).
  split; [apply Hfirst; discriminate |].
  split; [apply Hwith | apply Hnew; discriminate].
Defined.

(** ** [PointType.SQL] *)

(** C3. [PointType.SQL] answers the null marker on nil and the empty wire
    value, with a nil error, on a value that is neither nil nor a Point (the
    conversion error is dropped). On a Point the conversion succeeds and
    hands back the Point itself, which the assertion [pv.(string)] then
    refuses: the call panics, no wire value is produced. *)
Theorem PointType_SQL_cases :
  PointType_SQL VNil = Returns (sqltypes_NULL, None)
  /\ (forall p : Point,
        PointType_SQL (VPoint p) = Panics (InterfaceConversion "string"))
  /\ (forall v : value,
        v <> VNil -> (forall p, v <> VPoint p) ->
        PointType_SQL v = Returns (sqltypes_Value_zero, None)).
Proof.
  split; [reflexivity |]. split; [reflexivity |].
  intros v Hnil Hpt. destruct v as [|p| | | | |]; try reflexivity.
  destruct (Hpt p eq_refl).
Qed.

(** ** [pointOrientation] *)

Lemma F64_mul_comm x y : F64.mul x y = F64.mul y x.
Proof.
  unfold F64.mul.
  destruct x as [sx|sx| |sx mx ex], y as [sy|sy| |sy my ey]; simpl;
    try rewrite (xorb_comm sy sx); try reflexivity.
  rewrite (Pos.mul_comm my mx), (Z.add_comm ey ex). reflexivity.
Qed.

Lemma binary_round_aux_sign s m e l :
  binary_round_aux F64.prec F64.emax (negb s) m e l
  = SFopp (binary_round_aux F64.prec F64.emax s m e l).
Proof.
  unfold binary_round_aux.
  destruct (shr_fexp F64.prec F64.emax m e l) as [mrs e1].
  destruct (shr_fexp F64.prec F64.emax _ e1 loc_Exact) as [mrs2 e2].
  destruct (shr_m mrs2); try reflexivity.
  destruct (e2 <=? F64.emax - F64.prec); reflexivity.
Qed.

Lemma binary_round_sign s m e :
  binary_round F64.prec F64.emax (negb s) m e
  = SFopp (binary_round F64.prec F64.emax s m e).
Proof.
  unfold binary_round. destruct (shl_align _ _ _) as [mz ez].
  apply binary_round_aux_sign.
Qed.

Lemma SFcompare_opp_zero x :
  SFcompare (SFopp x) F64.zero = CompOpp <$> SFcompare x F64.zero.
Proof. destruct x as [[]|[]| |[] ? ?]; reflexivity. Qed.

Lemma binary_normalize_opp z e :
  SFcompare (binary_normalize F64.prec F64.emax (- z) e false) F64.zero
  = CompOpp <$> SFcompare (binary_normalize F64.prec F64.emax z e false) F64.zero.
Proof.
  destruct z as [|m|m]; [reflexivity | |].
  - change (- Z.pos m) with (Z.neg m). unfold binary_normalize.
    change (binary_round F64.prec F64.emax true m e)
      with (binary_round F64.prec F64.emax (negb false) m e).
    rewrite (binary_round_sign false m e). apply SFcompare_opp_zero.
  - change (- Z.neg m) with (Z.pos m). unfold binary_normalize.
    change (binary_round F64.prec F64.emax true m e)
      with (binary_round F64.prec F64.emax (negb false) m e).
    rewrite (binary_round_sign false m e), SFcompare_opp_zero.
    destruct (SFcompare _ _) as [[]|]; reflexivity.
Qed.

(** [y - x] and [x - y] have opposite signs. *)
Lemma F64_sub_swap x y :
  SFcompare (F64.sub y x) F64.zero = CompOpp <$> SFcompare (F64.sub x y) F64.zero.
Proof.
  unfold F64.sub.
  destruct x as [sx|sx| |sx mx ex], y as [sy|sy| |sy my ey];
    try destruct sx; try destruct sy; try reflexivity;
    unfold SFsub; rewrite (Z.min_comm ey ex);
    rewrite <- binary_normalize_opp; do 2 f_equal; unfold cond_Zopp; lia.
Qed.

Lemma pointOrientation_sign p1 p2 p3 :
  pointOrientation p1 p2 p3
  = match SFcompare (cross (vec p2 p3) (vec p1 p2)) F64.zero with
    | Some Eq => Collinear
    | Some Gt => Clockwise
    | _ => CounterClockwise
    end.
Proof.
  unfold pointOrientation, cross, vec, F64.eqb, F64.gtb, SFeqb. simpl.
  rewrite (F64_mul_comm (F64.sub (Y p2) (Y p1))).
  destruct (SFcompare _ _) as [[]|]; reflexivity.
Qed.

Lemma cross_swap p1 p2 p3 :
  SFcompare (cross (vec p2 p3) (vec p1 p2)) F64.zero
  = CompOpp <$> SFcompare (cross (vec p1 p2) (vec p2 p3)) F64.zero.
Proof.
  unfold cross, vec. simpl.
  rewrite (F64_mul_comm (F64.sub (X p3) (X p2))),
    (F64_mul_comm (F64.sub (Y p3) (Y p2))).
  apply F64_sub_swap.
Qed.

(** C4, as the code has it. [pointOrientation p1 p2 p3] classifies the sign
    of [(p2.Y-p1.Y)*(p3.X-p2.X) - (p3.Y-p2.Y)*(p2.X-p1.X)], which is the
    cross product of the vectors (p3-p2) and (p2-p1), in this order: zero is
    Collinear, positive is Clockwise, negative is CounterClockwise. Read on
    the cross product of (p2-p1) and (p3-p2), the signs are the opposite
    ones: positive is CounterClockwise and negative is Clockwise. The points
    (0,0),(1,1),(2,2) are Collinear; (0,0),(1,0),(1,1) and the mirror
    (0,0),(0,1),(1,1) get the two different non-collinear answers. *)
Theorem pointOrientation_cross (p1 p2 p3 : Point) :
  (F64.eqb (cross (vec p2 p3) (vec p1 p2)) F64.zero = true ->
   pointOrientation p1 p2 p3 = Collinear)
  /\ (F64.gtb (cross (vec p2 p3) (vec p1 p2)) F64.zero = true ->
      pointOrientation p1 p2 p3 = Clockwise)
  /\ (F64.ltb (cross (vec p2 p3) (vec p1 p2)) F64.zero = true ->
      pointOrientation p1 p2 p3 = CounterClockwise)
  /\ (F64.eqb (cross (vec p1 p2) (vec p2 p3)) F64.zero = true ->
      pointOrientation p1 p2 p3 = Collinear)
  /\ (F64.gtb (cross (vec p1 p2) (vec p2 p3)) F64.zero = true ->
      pointOrientation p1 p2 p3 = CounterClockwise)
  /\ (F64.ltb (cross (vec p1 p2) (vec p2 p3)) F64.zero = true ->
      pointOrientation p1 p2 p3 = Clockwise)
  /\ pointOrientation (pt 0 0) (pt 1 1) (pt 2 2) = Collinear
  /\ pointOrientation (pt 0 0) (pt 1 0) (pt 1 1) = CounterClockwise
  /\ pointOrientation (pt 0 0) (pt 0 1) (pt 1 1) = Clockwise.
Proof.
  rewrite pointOrientation_sign, cross_swap.
  unfold F64.eqb, F64.gtb, F64.ltb, SFeqb, SFltb.
  rewrite cross_swap.
  destruct (SFcompare (cross (vec p1 p2) (vec p2 p3)) F64.zero) as [[]|];
    simpl; repeat split; intros; try discriminate; reflexivity.
Qed.

(** C4, as the design document words it, fails: for (0,0),(1,0),(1,1) the
    cross product
    of (p2-p1) = (1,0) and (p3-p2) = (0,1) is 1, positive, and the answer is
    CounterClockwise, not Clockwise. *)
Lemma pointOrientation_cross_counterexample :
  F64.gtb (cross (vec (pt 0 0) (pt 1 0)) (vec (pt 1 0) (pt 1 1))) F64.zero = true
  /\ pointOrientation (pt 0 0) (pt 1 0) (pt 1 1) = CounterClockwise
  /\ pointOrientation (pt 0 0) (pt 1 0) (pt 1 1) <> Clockwise
  /\ ~ (forall p1 p2 p3,
          F64.gtb (cross (vec p1 p2) (vec p2 p3)) F64.zero = true ->
          pointOrientation p1 p2 p3 = Clockwise).
Proof.
  split; [reflexivity |]. split; [reflexivity |]. split; [discriminate |].
  intros H. specialize (H (pt 0 0) (pt 1 0) (pt 1 1) eq_refl). discriminate H.
Qed.

(** ** [lineSegmentsIntersect] *)

Lemma Min_Max_equal x y :
  SFcompare x y = Some Eq -> SFcompare (F64.Min x y) (F64.Max x y) = Some Eq.
Proof.
  intros H.
  destruct x as [sx|sx| |sx mx ex], y as [sy|sy| |sy my ey];
    try destruct sx; try destruct sy; try discriminate; try reflexivity;
    unfold F64.Min, F64.Max, F64.ltb, F64.gtb, F64.eqb, SFltb, SFeqb;
    rewrite H; simpl; rewrite Z.compare_refl;
    change (Pos.compare_cont Eq my my) with (my ?= my)%positive;
    rewrite Pos.compare_refl; reflexivity.
Qed.

(** No float64 lies strictly between the minimum and the maximum of two
    equal ones. *)
Lemma between_equal x y z :
  F64.eqb x y = true ->
  F64.gtb z (F64.Min x y) && F64.ltb z (F64.Max x y) = false.
Proof.
  unfold F64.eqb, SFeqb. intros H.
  destruct (SFcompare x y) as [[]|] eqn:Hxy; try discriminate.
  pose proof (Min_Max_equal x y Hxy) as Hm.
  unfold F64.gtb, F64.ltb, SFltb.
  destruct (SFcompare z (F64.Min x y)) as [[]|] eqn:Hz; try reflexivity.
  destruct (SFcompare_trans _ _ _ _ _ Hz Hm) as (c & -> & _ & Hc & _).
  rewrite (Hc eq_refl). reflexivity.
Qed.

Lemma onSegment_axis_aligned (a b c : Point) :
  F64.eqb (Y a) (Y b) = true \/ F64.eqb (X a) (X b) = true ->
  onSegment a b c = false.
Proof.
  unfold onSegment. intros [H|H].
  - pose proof (between_equal _ _ (Y c) H) as E.
    rewrite <- andb_assoc, E. apply andb_false_r.
  - pose proof (between_equal _ _ (X c) H) as E.
    rewrite E. reflexivity.
Qed.

(** C5, evaluated. The diagonals of the unit square intersect, and so do the
    collinear overlapping segments (0,0)-(2,2) and (1,1)-(3,3). But
    [onSegment] asks for strict inequalities on both axes, so on a horizontal
    or vertical line it is never true: the collinear overlapping segments
    (0,0)-(2,0) and (1,0)-(3,0), or (0,0)-(0,2) and (0,1)-(0,3), are reported
    as not intersecting, and so is a segment with itself. In float64 the
    orientation test can also report a crossing for segments with disjoint
    bounding boxes, when a product underflows to zero. *)
Theorem lineSegmentsIntersect_cases :
  lineSegmentsIntersect (pt 0 0) (pt 1 1) (pt 0 1) (pt 1 0) = true
  /\ lineSegmentsIntersect (pt 0 0) (pt 2 2) (pt 1 1) (pt 3 3) = true
  /\ lineSegmentsIntersect (pt 0 0) (pt 2 0) (pt 1 0) (pt 3 0) = false
  /\ lineSegmentsIntersect (pt 0 0) (pt 0 2) (pt 0 1) (pt 0 3) = false
  /\ lineSegmentsIntersect (pt 0 0) (pt 2 2) (pt 0 0) (pt 2 2) = false
  /\ (forall a b c : Point,
        F64.eqb (Y a) (Y b) = true \/ F64.eqb (X a) (X b) = true ->
        onSegment a b c = false)
  /\ (let a := mkPoint F64.zero F64.zero in
      let b := mkPoint F64.zero (F64.pow2 (-600)) in
      let c := mkPoint (F64.pow2 (-600)) (F64.pow2 (-601)) in
      let d := mkPoint (F64.of_Z 1) (F64.pow2 (-601)) in
      F64.ltb (F64.Max (X a) (X b)) (F64.Min (X c) (X d)) = true
      /\ lineSegmentsIntersect a b c d = true).
Proof.
  split; [vm_compute; reflexivity |]. split; [vm_compute; reflexivity |].
  split; [vm_compute; reflexivity |]. split; [vm_compute; reflexivity |].
  split; [vm_compute; reflexivity |].
  split; [exact onSegment_axis_aligned | vm_compute; split; reflexivity].
Qed.

(** ** Segments with separate bounding boxes *)

Lemma ltb_asym x y : F64.ltb x y = true -> F64.ltb y x = false.
Proof.
  unfold F64.ltb, SFltb. rewrite (SFcompare_swap x y).
  destruct (SFcompare x y) as [[]|]; simpl; congruence.
Qed.

Lemma ltb_leb_trans x y z :
  F64.ltb x y = true -> SFleb y z = true -> F64.ltb x z = true.
Proof.
  unfold F64.ltb, SFltb, SFleb. intros H1 H2.
  destruct (SFcompare x y) as [[]|] eqn:Hxy; try discriminate.
  destruct (SFcompare y z) as [[]|] eqn:Hyz; try discriminate;
    destruct (SFcompare_trans _ _ _ _ _ Hxy Hyz) as (c & -> & _ & Hb & Hc);
    [rewrite (Hb eq_refl) | rewrite (Hc eq_refl)]; reflexivity.
Qed.

Lemma leb_ltb_trans x y z :
  SFleb x y = true -> F64.ltb y z = true -> F64.ltb x z = true.
Proof.
  unfold F64.ltb, SFltb, SFleb. intros H1 H2.
  destruct (SFcompare y z) as [[]|] eqn:Hyz; try discriminate.
  destruct (SFcompare x y) as [[]|] eqn:Hxy; try discriminate;
    destruct (SFcompare_trans _ _ _ _ _ Hxy Hyz) as (c & -> & Ha & _ & Hc);
    [rewrite (Ha eq_refl) | rewrite (Hc eq_refl)]; reflexivity.
Qed.

Lemma leb_of_compare x y c :
  SFcompare x y = Some c -> c <> Gt -> SFleb x y = true.
Proof. unfold SFleb. intros -> H. destruct c; congruence. Qed.

(** Away from the special cases, [math.Min] is the smaller operand and
    [math.Max] the larger one. *)
Lemma Min_regular x y :
  F64.IsInf x (-1) = false -> F64.IsInf y (-1) = false ->
  F64.IsNaN x = false -> F64.IsNaN y = false ->
  (F64.Min x y = x /\ SFleb x y = true) \/ (F64.Min x y = y /\ SFleb y x = true).
Proof.
  intros H1 H2 H3 H4. unfold F64.Min. rewrite H1, H2, H3, H4. simpl orb. cbv iota.
  destruct (SFcompare_defined x y H3 H4) as [c Hc].
  pose proof (SFcompare_swap x y) as Hs. rewrite Hc in Hs. simpl in Hs.
  unfold F64.eqb, F64.ltb, SFeqb, SFltb. rewrite Hc.
  destruct c; rewrite ?andb_false_r.
  - destruct (_ && true); [destruct (F64.Signbit x) |];
      [left | right | right]; split; try reflexivity;
      eapply leb_of_compare; eauto; discriminate.
  - left. split; [reflexivity |]. eapply leb_of_compare; eauto; discriminate.
  - right. split; [reflexivity |]. eapply leb_of_compare; eauto; discriminate.
Qed.

Lemma Max_regular x y :
  F64.IsInf x 1 = false -> F64.IsInf y 1 = false ->
  F64.IsNaN x = false -> F64.IsNaN y = false ->
  (F64.Max x y = x /\ SFleb y x = true) \/ (F64.Max x y = y /\ SFleb x y = true).
Proof.
  intros H1 H2 H3 H4. unfold F64.Max. rewrite H1, H2, H3, H4. simpl orb. cbv iota.
  destruct (SFcompare_defined x y H3 H4) as [c Hc].
  pose proof (SFcompare_swap x y) as Hs. rewrite Hc in Hs. simpl in Hs.
  unfold F64.eqb, F64.gtb, SFeqb. rewrite Hc.
  destruct c; rewrite ?andb_false_r.
  - destruct (_ && true); [destruct (F64.Signbit x) |];
      [right | left | right]; split; try reflexivity;
      eapply leb_of_compare; eauto; discriminate.
  - right. split; [reflexivity |]. eapply leb_of_compare; eauto; discriminate.
  - left. split; [reflexivity |]. eapply leb_of_compare; eauto; discriminate.
Qed.

Lemma ltb_Min m x y :
  F64.ltb m (F64.Min x y) = true -> F64.ltb m x = true /\ F64.ltb m y = true.
Proof.
  intros H.
  destruct (F64.IsInf x (-1) || F64.IsInf y (-1)) eqn:E1.
  { unfold F64.Min in H. rewrite E1 in H.
    destruct m as [[]|[]| |[] ? ?]; discriminate. }
  destruct (F64.IsNaN x || F64.IsNaN y) eqn:E2.
  { unfold F64.Min in H. rewrite E1, E2 in H.
    destruct m as [[]|[]| |[] ? ?]; discriminate. }
  apply orb_false_elim in E1 as [E1 E1'], E2 as [E2 E2'].
  destruct (Min_regular x y E1 E1' E2 E2') as [[E L]|[E L]]; rewrite E in H;
    split; eauto using ltb_leb_trans.
Qed.

Lemma Max_ltb m x y :
  F64.ltb (F64.Max x y) m = true -> F64.ltb x m = true /\ F64.ltb y m = true.
Proof.
  intros H.
  destruct (F64.IsInf x 1 || F64.IsInf y 1) eqn:E1.
  { unfold F64.Max in H. rewrite E1 in H.
    destruct m as [[]|[]| |[] ? ?]; discriminate. }
  destruct (F64.IsNaN x || F64.IsNaN y) eqn:E2.
  { unfold F64.Max in H. rewrite E1, E2 in H.
    destruct m as [[]|[]| |[] ? ?]; discriminate. }
  apply orb_false_elim in E1 as [E1 E1'], E2 as [E2 E2'].
  destruct (Max_regular x y E1 E1' E2 E2') as [[E L]|[E L]]; rewrite E in H;
    split; eauto using leb_ltb_trans.
Qed.

(** A coordinate beyond one end of an interval is not strictly inside it. *)
Lemma outside_right lo hi z :
  F64.ltb hi z = true -> F64.gtb z lo && F64.ltb z hi = false.
Proof. intros H. rewrite (ltb_asym _ _ H). apply andb_false_r. Qed.

Lemma outside_left lo hi z :
  F64.ltb z lo = true -> F64.gtb z lo && F64.ltb z hi = false.
Proof. intros H. rewrite gtb_ltb, (ltb_asym _ _ H). reflexivity. Qed.

Lemma onSegment_outside_X a b c :
  F64.ltb (F64.Max (X a) (X b)) (X c) = true
  \/ F64.ltb (X c) (F64.Min (X a) (X b)) = true ->
  onSegment a b c = false.
Proof.
  unfold onSegment. intros [H|H];
    [rewrite (outside_right _ _ _ H) | rewrite (outside_left _ _ _ H)];
    reflexivity.
Qed.

Lemma onSegment_outside_Y a b c :
  F64.ltb (F64.Max (Y a) (Y b)) (Y c) = true
  \/ F64.ltb (Y c) (F64.Min (Y a) (Y b)) = true ->
  onSegment a b c = false.
Proof.
  unfold onSegment. rewrite <- andb_assoc. intros [H|H];
    [rewrite (outside_right _ _ _ H) | rewrite (outside_left _ _ _ H)];
    apply andb_false_r.
Qed.

Lemma boxes_apart_onSegment a b c d :
  boxes_apart a b c d = true ->
  onSegment a b c = false /\ onSegment a b d = false
  /\ onSegment c d a = false /\ onSegment c d b = false.
Proof.
  unfold boxes_apart. intros H.
  apply orb_prop in H as [H|H]; [apply orb_prop in H as [H|H];
    [apply orb_prop in H as [H|H] |] |].
  - destruct (ltb_Min _ _ _ H) as [Hc Hd].
    apply Max_ltb in H as [Ha Hb].
    auto 6 using onSegment_outside_X.
  - destruct (ltb_Min _ _ _ H) as [Ha Hb].
    apply Max_ltb in H as [Hc Hd].
    auto 6 using onSegment_outside_X.
  - destruct (ltb_Min _ _ _ H) as [Hc Hd].
    apply Max_ltb in H as [Ha Hb].
    auto 6 using onSegment_outside_Y.
  - destruct (ltb_Min _ _ _ H) as [Ha Hb].
    apply Max_ltb in H as [Hc Hd].
    auto 6 using onSegment_outside_Y.
Qed.

(** X1. When the bounding boxes are strictly apart on an axis none of the four
    boundary tests fires: [lineSegmentsIntersect] is then the orientation
    test alone. *)
Theorem lineSegmentsIntersect_boxes_apart (a b c d : Point) :
  boxes_apart a b c d = true ->
  lineSegmentsIntersect a b c d
  = negb (pointOrientation a b c =? pointOrientation a b d)
    && negb (pointOrientation c d a =? pointOrientation c d b).
Proof.
  intros H. destruct (boxes_apart_onSegment a b c d H) as (H1 & H2 & H3 & H4).
  unfold lineSegmentsIntersect. cbv zeta. rewrite H1, H2, H3, H4.
  rewrite !andb_false_r. destruct (_ && _); reflexivity.
Qed.

Lemma lineSegmentsIntersect_boxes_apart_witness :
  lineSegmentsIntersect (pt 0 0) (pt 1 1) (pt 5 5) (pt 6 7)
  = negb (pointOrientation (pt 0 0) (pt 1 1) (pt 5 5)
          =? pointOrientation (pt 0 0) (pt 1 1) (pt 6 7))
    && negb (pointOrientation (pt 5 5) (pt 6 7) (pt 0 0)
             =? pointOrientation (pt 5 5) (pt 6 7) (pt 1 1)).
Proof.
  apply (lineSegmentsIntersect_boxes_apart (pt 0 0) (pt 1 1) (pt 5 5) (pt 6 7)).
  reflexivity.
Defined.

(** ** Further properties of the descriptors *)

(** X3. Swapping the operands negates the answer of [PointType.Compare] on any
    two points, NaN coordinates included. *)
Theorem PointType_Compare_swap (p q : Point) :
  Compare_int p q = - Compare_int q p.
Proof.
  unfold Compare_int, PointType_Compare. simpl.
  rewrite !gtb_ltb. unfold F64.ltb, SFltb.
  rewrite (SFcompare_swap (X p) (X q)), (SFcompare_swap (Y p) (Y q)).
  destruct (SFcompare (X p) (X q)) as [[]|], (SFcompare (Y p) (Y q)) as [[]|];
    reflexivity.
Qed.

(** X4. [PointType.Compare] on two non-nil operands one of which is not a Point
    fails with the "non-Point" error. *)
Theorem PointType_Compare_mismatch (a b : value) :
  a <> VNil -> b <> VNil ->
  (forall p, a <> VPoint p) \/ (forall p, b <> VPoint p) ->
  PointType_Compare a b = (0, Some (errors_New "received a non-Point type")).
Proof.
  intros Ha Hb [H|H]; destruct a as [|p| | | | |], b as [|q| | | | |];
    try congruence; try reflexivity;
    try (destruct (H p eq_refl)); destruct (H q eq_refl).
Qed.

Lemma PointType_Compare_mismatch_witness :
  PointType_Compare (VPoint (pt 0 0)) (VString "POINT(0 0)")
  = (0, Some (errors_New "received a non-Point type")).
Proof.
  apply PointType_Compare_mismatch; [discriminate | discriminate |].
  right. discriminate.
Defined.

(** X5. [Polygon.Resolved] holds exactly when every child is resolved. *)
Theorem Polygon_Resolved_spec {Row St : Type} (l : function_Polygon Row St) :
  Polygon_Resolved l = true
  <-> forall c, elem_of c (args l) -> expr_Resolved c = true.
Proof.
  destruct l as [xs]. unfold Polygon_Resolved. simpl.
  induction xs as [|x xs IH]; simpl.
  - split; [intros _ c Hc; inversion Hc | reflexivity].
  - destruct (expr_Resolved x) eqn:Hx; simpl.
    + rewrite IH. split; intros H c.
      * intros Hc. inversion Hc; subst; auto.
      * intros Hc. apply H. constructor 2. exact Hc.
    + split; [discriminate |]. intros H.
      rewrite <- Hx. apply H. constructor.
Qed.

(** ** [PointType.Compare] beyond finite coordinates *)

Lemma Compare_defined p q :
  Point_no_NaN p = true -> Point_no_NaN q = true ->
  exists a b, SFcompare (X p) (X q) = Some a /\ SFcompare (Y p) (Y q) = Some b.
Proof.
  unfold Point_no_NaN.
  intros [Hpx Hpy]%andb_prop [Hqx Hqy]%andb_prop.
  apply negb_true_iff in Hpx, Hpy, Hqx, Hqy.
  destruct (SFcompare_defined (X p) (X q) Hpx Hqx) as [a Ha].
  destruct (SFcompare_defined (Y p) (Y q) Hpy Hqy) as [b Hb].
  eauto.
Qed.

(** X6. On two Points, whatever their coordinates (NaN and infinities
    included), [PointType.Compare] never fails and answers -1, 0 or 1; two
    points that Go's [==] equates compare equal. *)
Theorem PointType_Compare_points (p q : Point) :
  exists c, PointType_Compare (VPoint p) (VPoint q) = (c, None)
            /\ (c = -1 \/ c = 0 \/ c = 1)
            /\ (Point_eqb p q = true -> c = 0).
Proof.
  unfold PointType_Compare, Point_eqb, F64.gtb, F64.ltb, F64.eqb, SFltb, SFeqb.
  simpl.
  destruct (SFcompare (X p) (X q)) as [[]|], (SFcompare (Y p) (Y q)) as [[]|];
    simpl; eexists; (split; [reflexivity |]); split; try lia;
    intros; try discriminate; reflexivity.
Qed.

(** X7. Only NaN breaks the order: on points without a NaN coordinate,
    infinite coordinates allowed, [PointType.Compare] is transitive (weakly
    and strictly) and answers 0 exactly on the points that Go's [==]
    equates. *)
Theorem PointType_Compare_no_NaN (p q r : Point) :
  Point_no_NaN p = true -> Point_no_NaN q = true -> Point_no_NaN r = true ->
  (Compare_int p q <= 0 -> Compare_int q r <= 0 -> Compare_int p r <= 0)
  /\ (Compare_int p q < 0 -> Compare_int q r <= 0 -> Compare_int p r < 0)
  /\ (Compare_int p q <= 0 -> Compare_int q r < 0 -> Compare_int p r < 0)
  /\ (Compare_int p q = 0 <-> Point_eqb p q = true).
Proof.
  intros Hp Hq Hr.
  destruct (Compare_defined p q Hp Hq) as (a1 & b1 & Ha1 & Hb1).
  destruct (Compare_defined q r Hq Hr) as (a2 & b2 & Ha2 & Hb2).
  destruct (SFcompare_trans _ _ _ _ _ Ha1 Ha2) as (a3 & Ha3 & Ca).
  destruct (SFcompare_trans _ _ _ _ _ Hb1 Hb2) as (b3 & Hb3 & Cb).
  unfold Compare_int, Point_eqb, F64.eqb, SFeqb.
  rewrite (Compare_lex p q a1 b1 Ha1 Hb1), (Compare_lex q r a2 b2 Ha2 Hb2),
    (Compare_lex p r a3 b3 Ha3 Hb3), Ha1, Hb1.
  clear Ha1 Hb1 Ha2 Hb2 Ha3 Hb3 Hp Hq Hr.
  destruct Ca as (Ca1 & Ca2 & Ca3), Cb as (Cb1 & Cb2 & Cb3).
  repeat split;
    destruct a1, b1; simpl; try lia; try tauto; try discriminate;
    destruct a2, b2; simpl; try lia;
    destruct a3, b3; simpl; try lia;
    try (specialize (Ca1 eq_refl)); try (specialize (Ca2 eq_refl));
    try (specialize (Ca3 eq_refl)); try (specialize (Cb1 eq_refl));
    try (specialize (Cb2 eq_refl)); try (specialize (Cb3 eq_refl));
    discriminate.
Qed.

Lemma PointType_Compare_no_NaN_witness :
  Compare_int pt_neg_inf pt_pos_inf < 0
  /\ (Compare_int pt_neg_inf (pt 0 0) = 0 <-> Point_eqb pt_neg_inf (pt 0 0) = true).
Proof.
  destruct (PointType_Compare_no_NaN pt_neg_inf (pt 0 0) pt_pos_inf
              eq_refl eq_refl eq_refl) as (_ & Hstrict & _ & Heq).
  split; [apply Hstrict; vm_compute; congruence | exact Heq].
Defined.

(** ** [pointOrientation] on NaN and on reversed points *)

Lemma sub_NaN_l y : F64.sub S754_nan y = S754_nan.
Proof. reflexivity. Qed.

Lemma sub_NaN_r x : F64.sub x S754_nan = S754_nan.
Proof. destruct x; reflexivity. Qed.

Lemma mul_NaN_l y : F64.mul S754_nan y = S754_nan.
Proof. reflexivity. Qed.

Lemma mul_NaN_r x : F64.mul x S754_nan = S754_nan.
Proof. destruct x; reflexivity. Qed.

Lemma IsNaN_true x : F64.IsNaN x = true -> x = S754_nan.
Proof. destruct x; simpl; congruence. Qed.

Lemma pointOrientation_val p1 p2 p3 :
  pointOrientation p1 p2 p3
  = match SFcompare (orientation_val p1 p2 p3) F64.zero with
    | Some Eq => Collinear
    | Some Gt => Clockwise
    | _ => CounterClockwise
    end.
Proof.
  unfold pointOrientation, orientation_val, F64.eqb, F64.gtb, SFeqb.
  cbv zeta. destruct (SFcompare _ _) as [[]|]; reflexivity.
Qed.

(** X8. A NaN in any coordinate of any of the three points makes the value
    a NaN, which is neither [== 0] nor [> 0]: [pointOrientation] answers
    CounterClockwise. *)
Theorem pointOrientation_NaN (p1 p2 p3 : Point) :
  Point_has_NaN p1 || Point_has_NaN p2 || Point_has_NaN p3 = true ->
  pointOrientation p1 p2 p3 = CounterClockwise.
Proof.
  intros H. rewrite pointOrientation_val.
  assert (E : orientation_val p1 p2 p3 = S754_nan).
  { unfold orientation_val, Point_has_NaN in *.
    repeat (apply orb_prop in H as [H|H]);
      apply IsNaN_true in H; rewrite H;
      rewrite ?sub_NaN_l, ?sub_NaN_r, ?mul_NaN_l, ?mul_NaN_r,
        ?sub_NaN_l, ?sub_NaN_r; reflexivity. }
  rewrite E. reflexivity.
Qed.

Lemma pointOrientation_NaN_witness :
  pointOrientation (pt 0 0) (mkPoint F64.NaN (F64.of_Z 1)) (pt 2 2)
  = CounterClockwise.
Proof.
  apply (pointOrientation_NaN (pt 0 0) (mkPoint F64.NaN (F64.of_Z 1)) (pt 2 2)).
  reflexivity.
Defined.

Lemma same_value_refl x : same_value x x.
Proof. left. reflexivity. Qed.

Lemma same_value_compare x y :
  same_value x y -> SFcompare x F64.zero = SFcompare y F64.zero.
Proof. intros [->|(s & s' & -> & ->)]; reflexivity. Qed.

Lemma SFopp_involutive x : SFopp (SFopp x) = x.
Proof. destruct x as [[]|[]| |[] ? ?]; reflexivity. Qed.

Lemma binary_normalize_neg z e :
  same_value (binary_normalize F64.prec F64.emax (- z) e false)
             (SFopp (binary_normalize F64.prec F64.emax z e false)).
Proof.
  destruct z as [|m|m].
  - right. simpl. eauto.
  - left. change (- Z.pos m) with (Z.neg m). unfold binary_normalize.
    change (binary_round F64.prec F64.emax true m e)
      with (binary_round F64.prec F64.emax (negb false) m e).
    apply binary_round_sign.
  - left. change (- Z.neg m) with (Z.pos m). unfold binary_normalize.
    change (binary_round F64.prec F64.emax true m e)
      with (binary_round F64.prec F64.emax (negb false) m e).
    rewrite binary_round_sign, SFopp_involutive. reflexivity.
Qed.

(** [y - x] is the opposite of [x - y], up to the sign of a zero. *)
Lemma sub_swap_value x y : same_value (F64.sub y x) (SFopp (F64.sub x y)).
Proof.
  unfold F64.sub.
  destruct x as [sx|sx| |sx mx ex], y as [sy|sy| |sy my ey];
    try destruct sx; try destruct sy;
    try (left; reflexivity); try (right; simpl; eauto; fail);
    unfold SFsub; rewrite (Z.min_comm ey ex);
    match goal with
    | |- same_value (binary_normalize _ _ ?a _ _)
                    (SFopp (binary_normalize _ _ ?b _ _)) =>
      replace a with (- b) by (unfold cond_Zopp; lia)
    end;
    apply binary_normalize_neg.
Qed.

Lemma mul_opp_opp a b : F64.mul (SFopp a) (SFopp b) = F64.mul a b.
Proof.
  destruct a as [[]|[]| |[] ? ?], b as [[]|[]| |[] ? ?]; reflexivity.
Qed.

Lemma mul_same a a' b b' :
  same_value a a' -> same_value b b' ->
  same_value (F64.mul a b) (F64.mul a' b').
Proof.
  intros [->|(s & s' & -> & ->)] [->|(t & t' & -> & ->)].
  - left. reflexivity.
  - destruct a' as [?|?| |? ? ?]; try (left; reflexivity); right; simpl; eauto.
  - destruct b' as [?|?| |? ? ?]; try (left; reflexivity); right; simpl; eauto.
  - right. simpl. eauto.
Qed.

Lemma sub_same a a' b b' :
  same_value a a' -> same_value b b' ->
  same_value (F64.sub a b) (F64.sub a' b').
Proof.
  intros [->|(s & s' & -> & ->)] [->|(t & t' & -> & ->)].
  - left. reflexivity.
  - destruct a' as [[]|?| |? ? ?], t, t'; try (left; reflexivity);
      right; simpl; eauto.
  - destruct b' as [[]|?| |? ? ?], s, s'; try (left; reflexivity);
      right; simpl; eauto.
  - destruct s, s', t, t'; right; simpl; eauto.
Qed.

Lemma orientation_val_reverse p1 p2 p3 :
  SFcompare (orientation_val p3 p2 p1) F64.zero
  = CompOpp <$> SFcompare (orientation_val p1 p2 p3) F64.zero.
Proof.
  unfold orientation_val.
  set (u := F64.sub (Y p2) (Y p1)). set (v := F64.sub (X p3) (X p2)).
  set (w := F64.sub (Y p3) (Y p2)). set (t := F64.sub (X p2) (X p1)).
  assert (Hm : forall x y x' y',
             same_value x' (SFopp x) -> same_value y' (SFopp y) ->
             same_value (F64.mul x' y') (F64.mul x y)).
  { intros x y x' y' Hx Hy. rewrite <- (mul_opp_opp x y).
    apply mul_same; assumption. }
  rewrite <- (F64_sub_swap (F64.mul u v) (F64.mul w t)).
  apply same_value_compare, sub_same; apply Hm; apply sub_swap_value.
Qed.

(** X9. Reversing the order of the three points mirrors the answer of
    [pointOrientation]: Collinear stays Collinear, Clockwise becomes
    CounterClockwise, and a negative value (CounterClockwise) becomes
    Clockwise. Only a NaN value is CounterClockwise both ways. *)
Theorem pointOrientation_reverse (p1 p2 p3 : Point) :
  (pointOrientation p1 p2 p3 = Collinear <-> pointOrientation p3 p2 p1 = Collinear)
  /\ (pointOrientation p1 p2 p3 = Clockwise ->
      pointOrientation p3 p2 p1 = CounterClockwise)
  /\ (F64.ltb (orientation_val p1 p2 p3) F64.zero = true ->
      pointOrientation p3 p2 p1 = Clockwise)
  /\ (pointOrientation p1 p2 p3 = CounterClockwise ->
      pointOrientation p3 p2 p1 = CounterClockwise ->
      F64.IsNaN (orientation_val p1 p2 p3) = true).
Proof.
  rewrite !pointOrientation_val, (orientation_val_reverse p1 p2 p3).
  unfold F64.ltb, SFltb, Collinear, Clockwise, CounterClockwise.
  destruct (orientation_val p1 p2 p3) as [[]|[]| |[] ? ?]; simpl;
    repeat split; intros; try discriminate; reflexivity.
Qed.

(** ** Symmetries of [onSegment] and [lineSegmentsIntersect] *)

Lemma SFcompare_Eq_finite s m e s' m' e' :
  SFcompare (S754_finite s m e) (S754_finite s' m' e') = Some Eq ->
  S754_finite s m e = S754_finite s' m' e'.
Proof.
  destruct s, s'; simpl; try discriminate;
    destruct (Z.compare_spec e e'); try discriminate;
    change (Pos.compare_cont Eq m m') with (m ?= m')%positive;
    destruct (Pos.compare_spec m m'); try discriminate; congruence.
Qed.

(** On operands that are neither infinite nor NaN the two orders of the
    arguments of [math.Min] (and of [math.Max]) give the same float64. *)
Lemma Min_comm_regular x y :
  F64.finite x = true -> F64.finite y = true -> F64.Min x y = F64.Min y x.
Proof.
  intros Hx Hy.
  destruct x as [sx|sx| |sx mx ex], y as [sy|sy| |sy my ey];
    try discriminate; try (destruct sx, sy; reflexivity);
    try (destruct sx; reflexivity); try (destruct sy; reflexivity).
  unfold F64.Min, F64.ltb, SFltb.
  rewrite (SFcompare_swap (S754_finite sx mx ex) (S754_finite sy my ey)).
  destruct (SFcompare (S754_finite sx mx ex) (S754_finite sy my ey))
    as [[]|] eqn:E; try (destruct sx, sy; reflexivity).
  - rewrite (SFcompare_Eq_finite _ _ _ _ _ _ E). reflexivity.
  - destruct sx, sy; discriminate E.
Qed.

Lemma Max_comm_regular x y :
  F64.finite x = true -> F64.finite y = true -> F64.Max x y = F64.Max y x.
Proof.
  intros Hx Hy.
  destruct x as [sx|sx| |sx mx ex], y as [sy|sy| |sy my ey];
    try discriminate; try (destruct sx, sy; reflexivity);
    try (destruct sx; reflexivity); try (destruct sy; reflexivity).
  unfold F64.Max, F64.gtb.
  rewrite (SFcompare_swap (S754_finite sx mx ex) (S754_finite sy my ey)).
  destruct (SFcompare (S754_finite sx mx ex) (S754_finite sy my ey))
    as [[]|] eqn:E; try (destruct sx, sy; reflexivity).
  - rewrite (SFcompare_Eq_finite _ _ _ _ _ _ E). reflexivity.
  - destruct sx, sy; discriminate E.
Qed.

Lemma Min_comm x y : F64.Min x y = F64.Min y x.
Proof.
  destruct (F64.finite x) eqn:Hx, (F64.finite y) eqn:Hy;
    [apply Min_comm_regular; assumption | | |];
    destruct x as [[]|[]| |[] ? ?], y as [[]|[]| |[] ? ?];
    try discriminate; reflexivity.
Qed.

Lemma Max_comm x y : F64.Max x y = F64.Max y x.
Proof.
  destruct (F64.finite x) eqn:Hx, (F64.finite y) eqn:Hy;
    [apply Max_comm_regular; assumption | | |];
    destruct x as [[]|[]| |[] ? ?], y as [[]|[]| |[] ? ?];
    try discriminate; reflexivity.
Qed.

Lemma gtb_irrefl x : F64.gtb x x = false.
Proof.
  unfold F64.gtb. destruct (F64.IsNaN x) eqn:E.
  - apply IsNaN_true in E. subst. reflexivity.
  - rewrite (SFcompare_refl x E). reflexivity.
Qed.

Lemma ltb_irrefl x : F64.ltb x x = false.
Proof. rewrite <- gtb_ltb. apply gtb_irrefl. Qed.

Lemma leb_not_ltb x y : SFleb y x = true -> F64.ltb x y = false.
Proof.
  unfold SFleb, F64.ltb, SFltb. rewrite (SFcompare_swap x y).
  destruct (SFcompare x y) as [[]|]; simpl; congruence.
Qed.

Lemma finite_regular x :
  F64.finite x = true ->
  F64.IsInf x (-1) = false /\ F64.IsInf x 1 = false /\ F64.IsNaN x = false.
Proof. destruct x; simpl; intros; try discriminate; auto. Qed.

Ltac inside_special :=
  match goal with
  | |- F64.gtb ?u (F64.Min ?u ?v) && _ = false =>
    first
      [ replace (F64.Min u v) with u by reflexivity;
        rewrite gtb_irrefl; reflexivity
      | replace (F64.Max u v) with u by reflexivity;
        rewrite ltb_irrefl; apply andb_false_r ]
  end.

(** An operand of [math.Min] and [math.Max] is never strictly between the
    two results. *)
Lemma not_strictly_inside x y :
  F64.gtb x (F64.Min x y) && F64.ltb x (F64.Max x y) = false.
Proof.
  destruct (F64.finite x) eqn:Hx, (F64.finite y) eqn:Hy.
  - destruct (finite_regular x Hx) as (Ix & Jx & Nx).
    destruct (finite_regular y Hy) as (Iy & Jy & Ny).
    destruct (Min_regular x y Ix Iy Nx Ny) as [[E1 L1]|[E1 L1]]; rewrite E1.
    + rewrite gtb_irrefl. reflexivity.
    + destruct (Max_regular x y Jx Jy Nx Ny) as [[E2 L2]|[E2 L2]]; rewrite E2.
      * rewrite ltb_irrefl. apply andb_false_r.
      * rewrite (leb_not_ltb _ _ L1). apply andb_false_r.
  - destruct x as [[]|[]| |[] ? ?], y as [[]|[]| |[] ? ?];
      try discriminate; try reflexivity; inside_special.
  - destruct x as [[]|[]| |[] ? ?], y as [[]|[]| |[] ? ?];
      try discriminate; try reflexivity; inside_special.
  - destruct x as [[]|[]| |[] ? ?], y as [[]|[]| |[] ? ?];
      try discriminate; try reflexivity; inside_special.
Qed.

(** X10. [onSegment a b c] does not depend on the order of the endpoints
    [a] and [b], and it is false at both endpoints: a point where two
    segments merely touch at an end is never "on" the other segment. *)
Theorem onSegment_endpoints (a b c : Point) :
  onSegment a b c = onSegment b a c
  /\ onSegment a b a = false
  /\ onSegment a b b = false.
Proof.
  unfold onSegment. split; [| split].
  - rewrite (Min_comm (X a)), (Max_comm (X a)), (Min_comm (Y a)),
      (Max_comm (Y a)). reflexivity.
  - rewrite (not_strictly_inside (X a) (X b)). reflexivity.
  - rewrite (Min_comm (X a)), (Max_comm (X a)),
      (not_strictly_inside (X b) (X a)). reflexivity.
Qed.

(** X11. [lineSegmentsIntersect] is symmetric in the two segments: testing
    [ab] against [cd] and [cd] against [ab] give the same answer. *)
Theorem lineSegmentsIntersect_sym (a b c d : Point) :
  lineSegmentsIntersect a b c d = lineSegmentsIntersect c d a b.
Proof.
  unfold lineSegmentsIntersect. cbv zeta.
  destruct (pointOrientation a b c =? pointOrientation a b d),
    (pointOrientation c d a =? pointOrientation c d b),
    (pointOrientation a b c =? 0), (pointOrientation a b d =? 0),
    (pointOrientation c d a =? 0), (pointOrientation c d b =? 0),
    (onSegment a b c), (onSegment a b d), (onSegment c d a), (onSegment c d b);
    reflexivity.
Qed.

(** ** What [isLinearRing] accepts *)

Lemma Point_eqb_sym p q : Point_eqb p q = Point_eqb q p.
Proof.
  unfold Point_eqb, F64.eqb, SFeqb.
  rewrite (SFcompare_swap (X p) (X q)), (SFcompare_swap (Y p) (Y q)).
  destruct (SFcompare (X p) (X q)) as [[]|], (SFcompare (Y p) (Y q)) as [[]|];
    reflexivity.
Qed.

Lemma Point_eqb_no_NaN p q :
  Point_eqb p q = true -> Point_no_NaN p = true /\ Point_no_NaN q = true.
Proof.
  unfold Point_eqb, Point_no_NaN, F64.eqb, SFeqb.
  intros [Hx Hy]%andb_prop.
  destruct (X p), (X q); try discriminate;
    destruct (Y p), (Y q); try discriminate; auto.
Qed.

Lemma isLinearRing_cases (line : Linestring) :
  (Points line = [] /\ isLinearRing line = Panics (IndexOutOfRange 0 0))
  \/ ((1 <= length (Points line) <= 3)%nat /\ isLinearRing line = Returns false)
  \/ ((4 <= length (Points line))%nat
      /\ exists first lst,
           head (Points line) = Some first /\ last (Points line) = Some lst
           /\ isLinearRing line = Returns (Point_eqb first lst)).
Proof.
  destruct line as [ps]. simpl.
  destruct (decide (length ps = 0%nat)) as [E|E].
  - left. destruct ps; [auto | discriminate].
  - right. destruct (decide (length ps <= 3)%nat) as [L|L].
    + left. split; [lia |]. apply isLinearRing_short. simpl. lia.
    + right. split; [lia |].
      assert (Hne : ps <> []) by (destruct ps; [simpl in E; lia | discriminate]).
      destruct (proj2 (head_is_Some ps) Hne) as [first Hf].
      destruct (proj2 (last_is_Some ps) Hne) as [lst Hl].
      exists first, lst. split; [exact Hf |]. split; [exact Hl |].
      apply isLinearRing_long; simpl; [lia | exact Hf | exact Hl].
Qed.

Lemma isLinearRing_true_length (line : Linestring) :
  isLinearRing line = Returns true -> (4 <= length (Points line))%nat.
Proof.
  intros H.
  destruct (isLinearRing_cases line) as [[_ E]|[[_ E]|[L _]]];
    [rewrite E in H; discriminate | rewrite E in H; discriminate | exact L].
Qed.

(** X12. [isLinearRing] gives the same outcome on a Linestring and on the
    Linestring with its points in reverse order. *)
Theorem isLinearRing_reverse (line : Linestring) :
  isLinearRing (mkLinestring (reverse (Points line))) = isLinearRing line.
Proof.
  destruct (isLinearRing_cases line) as [[E1 E]|[[L E]|(L & f & l & Hf & Hl & E)]];
    rewrite E.
  - rewrite E1. reflexivity.
  - apply isLinearRing_short. simpl. rewrite length_reverse. exact L.
  - rewrite (isLinearRing_long (mkLinestring (reverse (Points line))) l f).
    + rewrite Point_eqb_sym. reflexivity.
    + simpl. rewrite length_reverse. exact L.
    + simpl. rewrite <- Hl, <- (last_reverse (reverse (Points line))).
      rewrite reverse_involutive. reflexivity.
    + simpl. rewrite last_reverse. exact Hf.
Qed.

(** X13. [isLinearRing] panics on the empty Linestring and on no other; a
    Linestring it accepts has at least four points, its first and last
    points are equal for Go's [==], and neither has a NaN coordinate. *)
Theorem isLinearRing_accepts (line : Linestring) :
  ((exists p, isLinearRing line = Panics p) <-> Points line = [])
  /\ (isLinearRing line = Returns true ->
      (4 <= length (Points line))%nat
      /\ exists first lst,
           head (Points line) = Some first /\ last (Points line) = Some lst
           /\ Point_eqb first lst = true
           /\ Point_no_NaN first = true /\ Point_no_NaN lst = true).
Proof.
  destruct (isLinearRing_cases line) as [[E1 E]|[[L E]|(L & f & l & Hf & Hl & E)]];
    rewrite E; split.
  - split; [intros _; exact E1 | eauto].
  - discriminate.
  - split; [intros [p Hp]; discriminate |].
    intros E0. rewrite E0 in L. simpl in L. lia.
  - discriminate.
  - split; [intros [p Hp]; discriminate |].
    intros E0. rewrite E0 in L. simpl in L. lia.
  - intros H. injection H as H. split; [exact L |].
    exists f, l. destruct (Point_eqb_no_NaN f l H). auto.
Qed.

Lemma isLinearRing_accepts_witness :
  (4 <= length (Points closed_ring))%nat
  /\ exists first lst,
       head (Points closed_ring) = Some first
       /\ last (Points closed_ring) = Some lst
       /\ Point_eqb first lst = true
       /\ Point_no_NaN first = true /\ Point_no_NaN lst = true.
Proof.
  destruct (isLinearRing_accepts closed_ring) as [_ H]. apply H. reflexivity.
Defined.

(** ** [Polygon.Eval]: the rings of a result, and argument lists put together *)

Section PolygonEvalMore.
Context {Row St : Type}.
Implicit Types (xs ys : list (Expression Row St)) (row : Row) (s : St).

Lemma eval_rings_valid xs : forall row s ls s1,
  eval_rings xs row s = Some (ls, s1) ->
  length ls = length xs
  /\ Forall (fun r => isLinearRing r = Returns true) ls.
Proof.
  induction xs as [|x xs IH]; intros row s ls s1 H; simpl in H.
  - injection H as <- <-. split; [reflexivity | constructor].
  - destruct (expr_Eval x row s) as [[v err] s'].
    destruct v as [| |v| | | |]; try discriminate.
    destruct err; try discriminate.
    destruct (isLinearRing v) as [[|]|] eqn:Hv; try discriminate.
    destruct (eval_rings xs row s') as [[ls' s2]|] eqn:Hxs; try discriminate.
    injection H as <- <-. destruct (IH _ _ _ _ Hxs) as [Hlen Hall].
    split; [simpl; congruence | constructor; assumption].
Qed.

(** An outcome of the loop other than a Polygon depends neither on the
    index and the array it was started with nor on arguments that follow. *)
Lemma Polygon_Eval_loop_failure xs :
  forall ys (i i' : nat) lines lines' row s (out : outcome ((value * option error) * St)),
  Polygon_Eval_loop xs i lines row s = out ->
  (forall r s1, out <> Returns ((r, None), s1)) ->
  Polygon_Eval_loop (xs ++ ys) i' lines' row s = out.
Proof.
  induction xs as [|x xs IH]; intros ys i i' lines lines' row s out H Hout;
    simpl in H.
  - subst out. destruct (Hout _ _ eq_refl).
  - simpl. destruct (expr_Eval x row s) as [[v err] s'].
    destruct err; [exact H |].
    destruct v; try exact H.
    destruct (isLinearRing l) as [[|]|]; simpl in *; try exact H.
    eapply IH; eassumption.
Qed.

Lemma Polygon_Eval_app_rings xs ys row s ls s1 :
  eval_rings xs row s = Some (ls, s1) ->
  Polygon_Eval (mkFunctionPolygon (xs ++ ys)) row s
  = Polygon_Eval_loop ys (length xs)
      (ls ++ replicate (length ys) (mkLinestring [])) row s1.
Proof.
  intros H. unfold Polygon_Eval. simpl args. rewrite length_app.
  apply (Polygon_Eval_loop_rings xs ys [] (length ys) row s ls s1 H).
Qed.
End PolygonEvalMore.

(** X14. A result of [Polygon.Eval] without an error is a Polygon with
    exactly one ring per argument, and each ring is a Linestring that
    [isLinearRing] accepts, so it has at least four points: the empty ring
    that the data model allows never comes out of the constructor. *)
Theorem Polygon_Eval_rings {Row St : Type} (l : function_Polygon Row St)
    (row : Row) (s s1 : St) (v : value) :
  Polygon_Eval l row s = Returns ((v, None), s1) ->
  exists pg, v = VPolygon pg
             /\ length (Lines pg) = length (args l)
             /\ Forall (fun r => isLinearRing r = Returns true
                                 /\ (4 <= length (Points r))%nat) (Lines pg).
Proof.
  intros H. destruct (Polygon_Eval_success _ _ _ _ _ H) as (ls & Hls & ->).
  destruct (eval_rings_valid _ _ _ _ _ Hls) as [Hlen Hall].
  exists (mkPolygon ls). split; [reflexivity |]. split; [exact Hlen |].
  simpl. eapply Forall_impl; [exact Hall |].
  intros r Hr. split; [exact Hr | apply isLinearRing_true_length, Hr].
Qed.

Lemma Polygon_Eval_rings_witness :
  exists pg,
    VPolygon (mkPolygon [closed_ring; bow_tie]) = VPolygon pg
    /\ length (Lines pg)
       = length (args (mkFunctionPolygon
                         [logged 1 false (VLinestring closed_ring) None;
                          logged 2 false (VLinestring bow_tie) None]))
    /\ Forall (fun r => isLinearRing r = Returns true
                        /\ (4 <= length (Points r))%nat) (Lines pg).
Proof.
  apply (Polygon_Eval_rings
           (mkFunctionPolygon [logged 1 false (VLinestring closed_ring) None;
                               logged 2 false (VLinestring bow_tie) None])
           () [] [2; 1]%nat).
  reflexivity.
Defined.

(** X15. Evaluating the arguments [xs ++ ys] is evaluating [xs] and then
    [ys] in the state [xs] left. If [Eval] on [xs] fails or panics, so does
    [Eval] on [xs ++ ys], with the same outcome and state; if it gives a
    Polygon, the outcome on [xs ++ ys] is the one of [ys], the rings of
    [xs] put in front when [ys] gives a Polygon too. *)
Theorem Polygon_Eval_app {Row St : Type} (xs ys : list (Expression Row St))
    (row : Row) (s : St) :
  (forall r e s1,
     Polygon_Eval (mkFunctionPolygon xs) row s = Returns ((r, Some e), s1) ->
     Polygon_Eval (mkFunctionPolygon (xs ++ ys)) row s
     = Returns ((r, Some e), s1))
  /\ (forall p,
        Polygon_Eval (mkFunctionPolygon xs) row s = Panics p ->
        Polygon_Eval (mkFunctionPolygon (xs ++ ys)) row s = Panics p)
  /\ (forall v s1,
        Polygon_Eval (mkFunctionPolygon xs) row s = Returns ((v, None), s1) ->
        exists pg, v = VPolygon pg
        /\ match Polygon_Eval (mkFunctionPolygon ys) row s1 with
           | Returns ((VPolygon pg', None), s2) =>
             Polygon_Eval (mkFunctionPolygon (xs ++ ys)) row s
             = Returns ((VPolygon (mkPolygon (Lines pg ++ Lines pg')), None), s2)
           | other =>
             Polygon_Eval (mkFunctionPolygon (xs ++ ys)) row s = other
           end).
Proof.
  split; [| split].
  - intros r e s1 H. unfold Polygon_Eval in *. simpl args in *.
    eapply Polygon_Eval_loop_failure; [exact H | discriminate].
  - intros p H. unfold Polygon_Eval in *. simpl args in *.
    eapply Polygon_Eval_loop_failure; [exact H | discriminate].
  - intros v s1 H.
    destruct (Polygon_Eval_success _ _ _ _ _ H) as (ls & Hls & ->).
    simpl in Hls. exists (mkPolygon ls). split; [reflexivity |].
    rewrite (Polygon_Eval_app_rings xs ys row s ls s1 Hls).
    destruct (Polygon_Eval (mkFunctionPolygon ys) row s1)
      as [[[v' [e'|]] s2]|p] eqn:Hys.
    + assert (Hgoal : Polygon_Eval_loop ys (length xs)
                        (ls ++ replicate (length ys) (mkLinestring [])) row s1
                      = Returns ((v', Some e'), s2)).
      { rewrite <- (app_nil_r ys) at 1.
        eapply Polygon_Eval_loop_failure; [exact Hys | discriminate]. }
      rewrite Hgoal. destruct v'; reflexivity.
    + destruct (Polygon_Eval_success _ _ _ _ _ Hys) as (ls' & Hls' & ->).
      simpl in Hls'. simpl.
      pose proof (Polygon_Eval_loop_rings ys [] ls 0%nat row s1 ls' s2 Hls') as E.
      rewrite app_nil_r, Nat.add_0_r in E. simpl in E.
      destruct (eval_rings_valid _ _ _ _ _ Hls) as [Hlen _].
      rewrite <- Hlen, E, app_nil_r. reflexivity.
    + rewrite <- (app_nil_r ys) at 1.
      eapply Polygon_Eval_loop_failure; [exact Hys | discriminate].
Qed.

Lemma Polygon_Eval_app_witness :
  Polygon_Eval
    (mkFunctionPolygon
       ([logged 1 false (VLinestring open_path) None]
        ++ [logged 2 false (VLinestring closed_ring) None]))
    () []
  = Returns ((VNil, Some ErrNonLinearRing), [1%nat]).
Proof.
  destruct (Polygon_Eval_app
              [logged 1 false (VLinestring open_path) None]
              [logged 2 false (VLinestring closed_ring) None] () [])
    as (H & _).
  apply H. reflexivity.
Defined.

(** ** Allocation by [NewPolygon] *)

Lemma NewPolygon_cases {Row St : Type} (children : list (Expression Row St))
    (h : heap Row St) :
  (children = []
   /\ NewPolygon children h
      = ((None, Some (ErrInvalidArgumentNumber "Polygon" "1 or more" 0)), h))
  \/ (children <> []
      /\ NewPolygon children h
         = ((Some (fresh (dom h)), None),
            <[fresh (dom h) := mkFunctionPolygon children]> h)).
Proof.
  destruct children as [|c cs]; [left; split; reflexivity | right].
  split; [discriminate |]. unfold NewPolygon.
  replace (Z.of_nat (length (c :: cs)) <? 1) with false
    by (symmetry; apply Z.ltb_ge; simpl length; lia).
  reflexivity.
Qed.

(** X16. [NewPolygon] never touches a node that exists: every node of the
    heap is found unchanged afterwards. A node it returns sits at a location
    that was free, [Children] of it are the arguments given, and it is the
    only location added. Two nodes made one after the other are different
    nodes, and the first keeps its children. *)
Theorem NewPolygon_frame {Row St : Type} (children : list (Expression Row St))
    (h h' : heap Row St) (r : option loc) (e : option error) :
  NewPolygon children h = ((r, e), h') ->
  (forall l0 node, h !! l0 = Some node -> h' !! l0 = Some node)
  /\ match r with
     | Some l1 =>
       h !! l1 = None
       /\ Polygon_Children <$> h' !! l1 = Some children
       /\ dom h' = {[l1]} ∪ dom h
       /\ (forall children2 l2 e2 h2,
             NewPolygon children2 h' = ((Some l2, e2), h2) ->
             l1 <> l2
             /\ Polygon_Children <$> h2 !! l1 = Some children
             /\ Polygon_Children <$> h2 !! l2 = Some children2)
     | None => h' = h /\ children = []
     end.
Proof.
  unfold heap, loc in *. intros H.
  assert (Hfresh : forall m : gmap positive (function_Polygon Row St),
             m !! fresh (dom m) = None)
    by (intros m; apply not_elem_of_dom_1, is_fresh).
  destruct (NewPolygon_cases children h) as [[-> E]|[Hne E]];
    unfold heap, loc in *; rewrite E in H; injection H as <- <- <-.
  - auto.
  - split.
    + intros l0 node Hl0. rewrite lookup_insert_ne; [exact Hl0 |].
      intros Heq. pose proof (Hfresh h) as Hf. rewrite Heq in Hf.
      congruence.
    + split; [apply Hfresh |]. split; [rewrite lookup_insert_eq; reflexivity |].
      split; [apply dom_insert_L |].
      intros children2 l2 e2 h2 H2.
      destruct (NewPolygon_cases children2
                  (<[fresh (dom h) := mkFunctionPolygon children]> h))
        as [[-> E2]|[Hne2 E2]];
        unfold heap, loc in *; rewrite E2 in H2; [discriminate |].
      injection H2 as <- <- <-.
      pose proof (Hfresh (<[fresh (dom h) := mkFunctionPolygon children]> h))
        as Hf2.
      assert (Hd : fresh (dom (<[fresh (dom h) := mkFunctionPolygon children]> h))
                   <> fresh (dom h)).
      { intros Heq. rewrite Heq, lookup_insert_eq in Hf2. discriminate. }
      split; [congruence |].
      rewrite lookup_insert_ne by exact Hd.
      rewrite !lookup_insert_eq. split; reflexivity.
Qed.

Lemma NewPolygon_frame_witness :
  snd (NewPolygon sample_children sample_heap) !! 1%positive = Some sample_node.
Proof.
  destruct (NewPolygon sample_children sample_heap) as [[r e] h'] eqn:E.
  destruct (NewPolygon_frame sample_children sample_heap h' r e E) as [H _].
  assert (Hs : sample_heap !! 1%positive = Some sample_node)
    by apply lookup_insert_eq.
  exact (H _ _ Hs).
Defined.

(** ** Segments that share an endpoint *)

Lemma sub_diag x : F64.finite x = true -> exists s, F64.sub x x = S754_zero s.
Proof.
  destruct x as [[]|?| |s m e]; try discriminate; intros _;
    try (eexists; reflexivity).
  exists false. unfold F64.sub, SFsub. rewrite Z.sub_diag. reflexivity.
Qed.

Lemma mul_zero_r a s :
  F64.finite a = true -> exists s', F64.mul a (S754_zero s) = S754_zero s'.
Proof. destruct a; try discriminate; intros _; eexists; reflexivity. Qed.

Lemma mul_zero_l a s :
  F64.finite a = true -> exists s', F64.mul (S754_zero s) a = S754_zero s'.
Proof. destruct a; try discriminate; intros _; eexists; reflexivity. Qed.

Lemma mul_opp_r a b : F64.mul a (SFopp b) = SFopp (F64.mul a b).
Proof.
  destruct a as [[]|[]| |sa ma ea], b as [[]|[]| |sb mb eb];
    try reflexivity; try (destruct sa; reflexivity);
    try (destruct sb; reflexivity).
  unfold F64.mul, SFmul, SFopp. rewrite <- negb_xorb_r.
  apply binary_round_aux_sign.
Qed.

Lemma mul_opp_l a b : F64.mul (SFopp a) b = SFopp (F64.mul a b).
Proof. rewrite F64_mul_comm, mul_opp_r, F64_mul_comm. reflexivity. Qed.

Lemma finite_opp x : F64.finite (SFopp x) = F64.finite x.
Proof. destruct x; reflexivity. Qed.

(** With [b] finite and the differences to [a] finite, [a], [b], [b] are
    collinear. *)
Lemma orientation_val_repeat a b :
  Point_finite b = true ->
  F64.finite (F64.sub (Y b) (Y a)) = true ->
  F64.finite (F64.sub (X b) (X a)) = true ->
  exists s, orientation_val a b b = S754_zero s.
Proof.
  unfold Point_finite, orientation_val. intros [Hx Hy]%andb_prop Hu Ht.
  destruct (sub_diag _ Hx) as [sx ->], (sub_diag _ Hy) as [sy ->].
  destruct (mul_zero_r _ sx Hu) as [s1 ->], (mul_zero_l _ sy Ht) as [s2 ->].
  destruct s1, s2; eexists; reflexivity.
Qed.

(** With the product of the differences finite, [b], [d], [b] are
    collinear. *)
Lemma orientation_val_return b d :
  F64.finite (F64.mul (F64.sub (Y d) (Y b)) (F64.sub (X d) (X b))) = true ->
  SFcompare (orientation_val b d b) F64.zero = Some Eq.
Proof.
  unfold orientation_val. intros HP.
  set (u := F64.sub (Y d) (Y b)) in *. set (v := F64.sub (X d) (X b)) in *.
  assert (H1 : same_value (F64.mul u (F64.sub (X b) (X d)))
                          (SFopp (F64.mul u v))).
  { rewrite <- mul_opp_r. apply mul_same;
      [apply same_value_refl | apply sub_swap_value]. }
  assert (H2 : same_value (F64.mul (F64.sub (Y b) (Y d)) v)
                          (SFopp (F64.mul u v))).
  { rewrite <- mul_opp_l. apply mul_same;
      [apply sub_swap_value | apply same_value_refl]. }
  rewrite (same_value_compare _ _ (sub_same _ _ _ _ H1 H2)).
  rewrite <- finite_opp in HP. destruct (sub_diag _ HP) as [s ->].
  reflexivity.
Qed.

(** X17. Two segments [ab] and [bd] that share the endpoint [b] and are not
    collinear ([pointOrientation] is not Collinear on [a, b, d] nor on
    [b, d, a]) are reported as intersecting, as long as [b] is finite and
    the coordinate differences and their product do not overflow: the shared
    endpoint counts as a crossing. Consecutive segments of a path would thus
    always "intersect" in the scan that [isLinearRing] leaves unreached. *)
Theorem lineSegmentsIntersect_shared_endpoint (a b d : Point) :
  Point_finite b = true ->
  F64.finite (F64.sub (Y b) (Y a)) = true ->
  F64.finite (F64.sub (X b) (X a)) = true ->
  F64.finite (F64.mul (F64.sub (Y d) (Y b)) (F64.sub (X d) (X b))) = true ->
  pointOrientation a b d <> Collinear ->
  pointOrientation b d a <> Collinear ->
  lineSegmentsIntersect a b b d = true.
Proof.
  intros Hb Hu Ht HP Habd Hbda.
  destruct (orientation_val_repeat a b Hb Hu Ht) as [s Hs].
  assert (E1 : pointOrientation a b b = 0)
    by (rewrite pointOrientation_val, Hs; reflexivity).
  assert (E2 : pointOrientation b d b = 0)
    by (rewrite pointOrientation_val, (orientation_val_return b d HP);
        reflexivity).
  unfold lineSegmentsIntersect. cbv zeta. rewrite E1, E2.
  unfold Collinear in *.
  replace (0 =? pointOrientation a b d) with false
    by (symmetry; apply Z.eqb_neq; congruence).
  replace (pointOrientation b d a =? 0) with false
    by (symmetry; apply Z.eqb_neq; congruence).
  reflexivity.
Qed.

Lemma lineSegmentsIntersect_shared_endpoint_witness :
  lineSegmentsIntersect (pt 0 0) (pt 1 0) (pt 1 0) (pt 1 1) = true.
Proof.
  apply (lineSegmentsIntersect_shared_endpoint (pt 0 0) (pt 1 0) (pt 1 1));
    try reflexivity; vm_compute; discriminate.
Defined.
